(** * PillowFight workload driver: completion polling, log parsing, sanity check

    A shallow embedding of [ocs_ci/ocs/pillowfight.py] (class [PillowFight]):
    - [parse_pillowfight_log] : the line-by-line parser of couchbase
      pillowfight logs,
    - [sanity_check]          : the threshold validation of a parsed record,
    - [run_pillowfights]      : the polling loop over [TimeoutSampler] and the
      collection of the logs of completed pods,
    - [analyze_all]           : the analysis of every collected log,
    - [export_pfoutput_to_googlesheet] : the rows handed to the spreadsheet.

    Conventions of the embedding.
    - A Python [str] is a [list ascii]: the characters are the 256 code points
      of Latin-1.  In that range [\d] and [int()] accept the digits 0-9 only,
      and [str.isspace] holds of the code points listed in [isspace].
    - A Python [int] is a [Z] (unbounded).  [int()] refuses a literal of more
      than 4300 digits, the default of [sys.int_max_str_digits].
    - A Python [float] is the rational that it stands for; [py_truediv]
      rounds the quotient of two integers to binary64 as [/] does.
    - Exceptions are values of [exn]; a computation that can raise returns a
      [res].  Code that mutates an object before it raises is written in the
      monad [M], which returns the state reached together with the outcome.
    - Calls of [log.info] have no effect on any value and are left out. *)

From Stdlib Require Import Ascii String ZArith QArith Lia.
From stdpp Require Import base option list gmap.

Local Open Scope Z_scope.

(** ** Python values and exceptions *)

Definition str := list ascii.

(** A string literal of the source. *)
Definition lit (s : string) : str := list_ascii_of_string s.

(** The three messages given to [Exception(...)] in the source:
    ["Pillowfight failed to complete"],
    [f"Worst OPS/SEC value reported is {stat1}"] and
    [f"Worst response time reported is {stat2} milliseconds"]. *)
Inductive message :=
| FailedToComplete
| WorstOpsPerSec (stat1 : Z)
| WorstResponseTime (stat2 : Q).

Inductive exn :=
| ValueError
| IndexError
| KeyError
| TypeError
| TimeoutExpiredError
| OverflowError
| ZeroDivisionError
| CommandFailed
| OSError
| Exception (m : message).

Inductive res (A : Type) :=
| Ok (a : A)
| Raise (e : exn).
Arguments Ok {A} a.
Arguments Raise {A} e.

(** State and exception monad: the state survives a raise, as the mutations
    of a Python object do. *)
Definition M (S A : Type) := S -> S * res A.

Definition ret {S A} (a : A) : M S A := fun s => (s, Ok a).
Definition bind {S A B} (c : M S A) (k : A -> M S B) : M S B :=
  fun s => match c s with
           | (s', Ok a) => k a s'
           | (s', Raise e) => (s', Raise e)
           end.
Definition lift {S A} (r : res A) : M S A := fun s => (s, r).
Definition modify {S} (f : S -> S) : M S unit := fun s => (f s, Ok tt).

Notation "x <- c ;; k" := (bind c (fun x => k))
  (at level 100, c at next level, right associativity).
Notation "c ;;; k" := (bind c (fun _ => k))
  (at level 100, right associativity).

(** [try: c except e: h] *)
Definition try_except {S} (c : M S unit) (handles : exn -> bool) (h : M S unit)
  : M S unit :=
  fun s => match c s with
           | (s', Raise e) => if handles e then h s' else (s', Raise e)
           | r => r
           end.

(** [for x in xs: body x], without [break]. *)
Fixpoint for_each {S A} (xs : list A) (body : A -> M S unit) : M S unit :=
  match xs with
  | [] => ret tt
  | x :: xs' => body x ;;; for_each xs' body
  end.

(** ** Strings *)

Definition ascii_eqb (a b : ascii) : bool := Ascii.eqb a b.

(** [str.isspace] on one character of Latin-1: TAB, LF, VT, FF, CR,
    FS, GS, RS, US, SPACE, NEL and NBSP. *)
Definition isspace (c : ascii) : bool :=
  let n := nat_of_ascii c in
  ((9 <=? n)%nat && (n <=? 13)%nat) || ((28 <=? n)%nat && (n <=? 32)%nat)
  || (n =? 133)%nat || (n =? 160)%nat.

(** [\d], and the digits of [int()]. *)
Definition isdigit (c : ascii) : bool :=
  let n := nat_of_ascii c in (48 <=? n)%nat && (n <=? 57)%nat.

Definition digit_val (c : ascii) : Z := Z.of_nat (nat_of_ascii c) - 48.

(** [s.startswith(p)] *)
Fixpoint startswith (p s : str) : bool :=
  match p, s with
  | [], _ => true
  | a :: p', b :: s' => ascii_eqb a b && startswith p' s'
  | _ :: _, [] => false
  end.

(** [s.split(sep)] for a separator of one character: never empty. *)
Fixpoint split_on (sep : ascii) (s : str) : list str :=
  match s with
  | [] => [[]]
  | c :: s' =>
      if ascii_eqb c sep then [] :: split_on sep s'
      else match split_on sep s' with
           | f :: fs => (c :: f) :: fs
           | [] => [[c]]
           end
  end.

(** [s.split()]: the maximal runs of characters that are not white space. *)
Fixpoint split_ws (s : str) : list str :=
  match s with
  | [] => []
  | c :: s' =>
      if isspace c then split_ws s'
      else match s' with
           | [] => [[c]]
           | d :: _ =>
               if isspace d then [c] :: split_ws s'
               else match split_ws s' with
                    | t :: ts => (c :: t) :: ts
                    | [] => [[c]]
                    end
           end
  end.

(** [s.replace(old, new)] for [old] and [new] of one character. *)
Definition replace (old new : ascii) (s : str) : str :=
  map (fun c => if ascii_eqb c old then new else c) s.

Fixpoint lstrip (s : str) : str :=
  match s with
  | c :: s' => if isspace c then lstrip s' else s
  | [] => []
  end.

(** [s.strip()] *)
Definition strip (s : str) : str := rev (lstrip (rev (lstrip s))).

(** [l[i]] for [i >= 0], and [l[-1]]. *)
Definition index {A} (l : list A) (i : nat) : res A :=
  match l !! i with
  | Some x => Ok x
  | None => Raise IndexError
  end.

Definition index_last {A} (l : list A) : res A :=
  match last l with
  | Some x => Ok x
  | None => Raise IndexError
  end.

(** The digits of a decimal literal after its first digit: digits, each
    optionally preceded by one underscore. *)
Fixpoint int_digits (acc : Z) (s : str) : option Z :=
  match s with
  | [] => Some acc
  | c :: s' =>
      if isdigit c then int_digits (10 * acc + digit_val c) s'
      else if ascii_eqb c "_" then
        match s' with
        | d :: s'' =>
            if isdigit d then int_digits (10 * acc + digit_val d) s'' else None
        | [] => None
        end
      else None
  end.

Definition int_unsigned (s : str) : option Z :=
  match s with
  | c :: s' => if isdigit c then int_digits (digit_val c) s' else None
  | [] => None
  end.

(** The number of digits of a literal, and the most that [int()] reads
    ([sys.int_max_str_digits]; the sign and the underscores do not count). *)
Definition count_digits (s : str) : nat := length (List.filter isdigit s).

Definition int_max_str_digits : nat := 4300.

(** [int(s)] in base 10: white space around, an optional sign, then digits,
    and no more of them than [int_max_str_digits]. *)
Definition py_int (s : str) : res Z :=
  let t := strip s in
  let r := match t with
           | c :: t' =>
               if ascii_eqb c "-" then Z.opp <$> int_unsigned t'
               else if ascii_eqb c "+" then int_unsigned t'
               else int_unsigned t
           | [] => None
           end in
  match r with
  | Some z =>
      if (count_digits t <=? int_max_str_digits)%nat then Ok z
      else Raise ValueError
  | None => Raise ValueError
  end.

(** ** Regular expressions, as far as the one pattern of the source needs

    [re_match r s] is [re.match(r, s) is not None]: some prefix of [s] is in
    the language of [r].  It is computed with Brzozowski derivatives. *)
Inductive re :=
| Void
| Eps
| Cls (p : ascii -> bool)
| Seq (r1 r2 : re)
| Alt (r1 r2 : re)
| Star (r : re).

Fixpoint nullable (r : re) : bool :=
  match r with
  | Void => false
  | Eps => true
  | Cls _ => false
  | Seq r1 r2 => nullable r1 && nullable r2
  | Alt r1 r2 => nullable r1 || nullable r2
  | Star _ => true
  end.

Fixpoint deriv (c : ascii) (r : re) : re :=
  match r with
  | Void => Void
  | Eps => Void
  | Cls p => if p c then Eps else Void
  | Seq r1 r2 =>
      if nullable r1 then Alt (Seq (deriv c r1) r2) (deriv c r2)
      else Seq (deriv c r1) r2
  | Alt r1 r2 => Alt (deriv c r1) (deriv c r2)
  | Star r1 => Seq (deriv c r1) (Star r1)
  end.

Fixpoint re_match (r : re) (s : str) : bool :=
  nullable r ||
  match s with
  | [] => false
  | c :: s' => re_match (deriv c r) s'
  end.

Definition Chr (c : ascii) : re := Cls (ascii_eqb c).
Definition Plus (r : re) : re := Seq r (Star r).
Fixpoint Seqs (rs : list re) : re :=
  match rs with
  | [] => Eps
  | [r] => r
  | r :: rs' => Seq r (Seqs rs')
  end.

(** The pattern ["^\\[\\d+ +- \\d+ *\\][um]s \\|#* - \\d+"]. *)
Definition hist_pattern : re :=
  Seqs [ Chr "["; Plus (Cls isdigit); Plus (Chr " "); Chr "-"; Chr " ";
         Plus (Cls isdigit); Star (Chr " "); Chr "]";
         Cls (fun c => ascii_eqb c "u" || ascii_eqb c "m"); Chr "s"; Chr " ";
         Chr "|"; Star (Chr "#"); Chr " "; Chr "-"; Chr " ";
         Plus (Cls isdigit) ].

(** ** The parsed record *)

Record bucket := { minindx : Z; number : Z }.

(** The dictionary [{"opspersec": ops_per_sec, "resptimes": resp_hist}]. *)
Record stats := { opspersec : list Z; resptimes : gmap Z bucket }.

Definition append_ops (dnumb : Z) (st : stats) : stats :=
  {| opspersec := opspersec st ++ [dnumb]; resptimes := resptimes st |}.

Definition set_resp (i2 : Z) (b : bucket) (st : stats) : stats :=
  {| opspersec := opspersec st; resptimes := <[i2 := b]> (resptimes st) |}.

(** ** [PillowFight.parse_pillowfight_log] *)

(** The characters replaced by a space before the bucket line is split. *)
Definition elements : list ascii := ["["; "]"; "|"; "-"; "#"]%char.

(** The body of the [try] statement, for one line. *)
Definition try_body (dline : str) : M stats unit :=
  (if startswith (lit "OPS/SEC") dline then
     let dfields := split_on " " dline in
     f <- lift (index_last dfields) ;;
     dnumb <- lift (py_int (strip f)) ;;
     modify (append_ops dnumb)
   else ret tt) ;;;
  if re_match hist_pattern dline then
    let dline := fold_left (fun d element => replace element " " d)
                           elements dline in
    let parts := split_ws dline in
    p0 <- lift (index parts 0) ;;
    i1 <- lift (py_int p0) ;;
    p1 <- lift (index parts 1) ;;
    i2 <- lift (py_int p1) ;;
    p2 <- lift (index parts 2) ;;
    let '(i1, i2) := if bool_decide (p2 = lit "ms")
                     then (i1 * 1000, i2 * 1000) else (i1, i2) in
    p3 <- lift (index parts 3) ;;
    n <- lift (py_int p3) ;;
    modify (set_resp i2 {| minindx := i1; number := n |})
  else ret tt.

Definition is_ValueError (e : exn) : bool :=
  match e with ValueError => true | _ => false end.

(** One turn of [for dline in lines]. *)
Definition parse_line (dline : str) : M stats unit :=
  try_except (try_body dline) is_ValueError (ret tt).

Definition empty_stats : stats := {| opspersec := []; resptimes := ∅ |}.

Definition parse_lines (lines : list str) : M stats unit :=
  for_each lines parse_line.

Definition parse_pillowfight_log (data_from_log : str) : res stats :=
  let lines := split_on "010" data_from_log in
  match parse_lines lines empty_stats with
  | (ret_data, Ok _) => Ok ret_data
  | (_, Raise e) => Raise e
  end.

(** ** [PillowFight.sanity_check] *)

(** The attributes of [self] that the methods read.  The class sets
    [MIN_ACCEPTABLE_OPS_PER_SEC = 2000], [MAX_ACCEPTABLE_RESPONSE_TIME = 2000]
    and [WAIT_FOR_TIME = 1800]. *)
Record PillowFight := {
  MIN_ACCEPTABLE_OPS_PER_SEC : Z;
  MAX_ACCEPTABLE_RESPONSE_TIME : Z
}.

Definition PillowFight_class : PillowFight :=
  {| MIN_ACCEPTABLE_OPS_PER_SEC := 2000; MAX_ACCEPTABLE_RESPONSE_TIME := 2000 |}.

(** [min(l)] and [max(l)] of a sequence of integers. *)
Definition py_min (l : list Z) : res Z :=
  match l with
  | [] => Raise ValueError
  | x :: l' => Ok (foldl Z.min x l')
  end.

Definition py_max (l : list Z) : res Z :=
  match l with
  | [] => Raise ValueError
  | x :: l' => Ok (foldl Z.max x l')
  end.

(** [d.keys()]; the order of the keys plays no part in [max]. *)
Definition keys (d : gmap Z bucket) : list Z := (map_to_list d).*1.

Definition rbind {A B} (r : res A) (k : A -> res B) : res B :=
  match r with
  | Ok a => k a
  | Raise e => Raise e
  end.

Notation "'let?' x := r 'in' k" := (rbind r (fun x => k))
  (at level 10, x name, r at level 100, k at level 200).

(** *** The true division of two integers

    [a / b] on two [int]s gives the binary64 float nearest to the quotient,
    ties going to the even significand, and raises [OverflowError] when that
    float would be out of range.  A float is kept as the rational
    [m * 2^e] that it is. *)

(** The integer nearest to [n / d], ties to even, for [d > 0]. *)
Definition round_half_even (n d : Z) : Z :=
  let q := n / d in
  let r := n mod d in
  if 2 * r <? d then q
  else if d <? 2 * r then q + 1
  else if Z.even q then q else q + 1.

(** [n / d] divided by [2^e], as a fraction of integers. *)
Definition scaled (n d e : Z) : Z * Z :=
  if 0 <=? e then (n, d * 2 ^ e) else (n * 2 ^ (- e), d).

(** The greatest [t] with [2^t <= n / d], for [n > 0] and [d > 0]. *)
Definition ilog2 (n d : Z) : Z :=
  let t := Z.log2 n - Z.log2 d in
  let '(n', d') := scaled n d t in
  if d' <=? n' then t else t - 1.

(** The rational [m * 2^e]. *)
Definition dyadic (m e : Z) : Q :=
  if 0 <=? e then inject_Z (m * 2 ^ e) else Qmake m (Z.to_pos (2 ^ (- e))).

(** The float of [n / d] for [n > 0] and [d > 0]: a significand of 53 bits,
    fewer below the least normal exponent. *)
Definition float_of_ratio (n d : Z) : res Q :=
  let e := Z.max (ilog2 n d - 52) (-1074) in
  let '(n', d') := scaled n d e in
  let m := round_half_even n' d' in
  if (0 <=? e) && (2 ^ 1024 <=? m * 2 ^ e) then Raise OverflowError
  else Ok (dyadic m e).

(** [a / b] *)
Definition py_truediv (a b : Z) : res Q :=
  if b =? 0 then Raise ZeroDivisionError
  else if a =? 0 then Ok 0%Q
  else
    let? x := float_of_ratio (Z.abs a) (Z.abs b) in
    if Bool.eqb (0 <? a) (0 <? b) then Ok x else Ok (Qopp x).

(** The comparison of the float [stat2] with the integer threshold is exact,
    as Python's is. *)
Definition sanity_check (self : PillowFight) (stats0 : stats) : res unit :=
  let? stat1 := py_min (opspersec stats0) in
  if stat1 <? MIN_ACCEPTABLE_OPS_PER_SEC self then
    Raise (Exception (WorstOpsPerSec stat1))
  else
    let? k := py_max (keys (resptimes stats0)) in
    let? stat2 := py_truediv k 1000 in
    if negb (Qle_bool stat2 (inject_Z (MAX_ACCEPTABLE_RESPONSE_TIME self))) then
      Raise (Exception (WorstResponseTime stat2))
    else Ok tt.

(** The body of the loop of [analyze_all], for the text of one log file. *)
Definition analyze (self : PillowFight) (data_from_log : str) : res unit :=
  let? log_data := parse_pillowfight_log data_from_log in
  sanity_check self log_data.

(** ** [PillowFight.run_pillowfights] *)

(** The value that [exec_oc_cmd] loads from the output of [oc get pods -o json]:
    a YAML document.  Floats do not occur in the part that is read. *)
#[local] Unset Elimination Schemes.
Inductive pyval :=
| PNone
| PBool (b : bool)
| PInt (z : Z)
| PStr (s : str)
| PList (l : list pyval)
| PDict (d : list (str * pyval)).
#[local] Set Elimination Schemes.

Fixpoint assoc {A} (k : str) (d : list (str * A)) : option A :=
  match d with
  | [] => None
  | (k', v) :: d' => if bool_decide (k' = k) then Some v else assoc k d'
  end.

(** [v[k]] for a string [k]. *)
Definition getitem (v : pyval) (k : str) : res pyval :=
  match v with
  | PDict d => match assoc k d with
               | Some x => Ok x
               | None => Raise KeyError
               end
  | _ => Raise TypeError
  end.

(** [v[0]].  The keys of the dictionaries are strings. *)
Definition getitem0 (v : pyval) : res pyval :=
  match v with
  | PList l => index l 0
  | PStr s => match s with
              | c :: _ => Ok (PStr [c])
              | [] => Raise IndexError
              end
  | PDict _ => Raise KeyError
  | _ => Raise TypeError
  end.

(** [sub in s] for two strings. *)
Fixpoint substring (sub s : str) : bool :=
  startswith sub s ||
  match s with
  | [] => false
  | _ :: s' => substring sub s'
  end.

Definition is_PStr (k : str) (v : pyval) : bool :=
  match v with
  | PStr s => bool_decide (s = k)
  | _ => false
  end.

(** [k in v] for a string [k]. *)
Definition contains (k : str) (v : pyval) : res bool :=
  match v with
  | PDict d => Ok (bool_decide (is_Some (assoc k d)))
  | PList l => Ok (existsb (is_PStr k) l)
  | PStr s => Ok (substring k s)
  | _ => Raise TypeError
  end.

(** Modelled from the spec: [constants.STATUS_COMPLETED] of [ocs_ci.ocs], which
    is not among the sources ("a Terminated state with reason "Completed"
    marks the instance success"). *)
Definition STATUS_COMPLETED : str := lit "Completed".

(** [d.update({k: v})] on a dictionary in insertion order. *)
Fixpoint update {A} (k : str) (v : A) (d : list (str * A)) : list (str * A) :=
  match d with
  | [] => [(k, v)]
  | (k', v') :: d' =>
      if bool_decide (k' = k) then (k, v) :: d' else (k', v') :: update k v d'
  end.

(** What one turn of the polling loop reads and writes: the local [counter]
    and [self.pods_info]. *)
Record poll_state := {
  counter : Z;
  pods_info : list (str * pyval)
}.

Definition record_completed (pf_pod : str) (pf_completion_info : pyval)
  (s : poll_state) : poll_state :=
  {| counter := counter s + 1;
     pods_info := update pf_pod pf_completion_info (pods_info s) |}.

(** The body of [for pf_pod in pillowfight_pods], given the answer [pod_info]
    of [exec_oc_cmd] for that pod. *)
Definition classify (pod : str * pyval) : M poll_state unit :=
  let '(pf_pod, pod_info) := pod in
  status <- lift (getitem pod_info (lit "status")) ;;
  statuses <- lift (getitem status (lit "containerStatuses")) ;;
  first <- lift (getitem0 statuses) ;;
  pf_status <- lift (getitem first (lit "state")) ;;
  terminated <- lift (contains (lit "terminated") pf_status) ;;
  if terminated : bool then
    t <- lift (getitem pf_status (lit "terminated")) ;;
    pf_completion_info <- lift (getitem t (lit "reason")) ;;
    if is_PStr STATUS_COMPLETED pf_completion_info then
      modify (record_completed pf_pod pf_completion_info)
    else ret tt
  else
    running <- lift (contains (lit "running") pf_status) ;;
    ret tt.

Definition is_IndexError (e : exn) : bool :=
  match e with IndexError => true | _ => false end.

(** One turn of [for pillowfight_pods in TimeoutSampler(...)]: the [try]
    statement.  The result [true] stands for [break].  The pods are given
    with the answer of the cluster for each. *)
Definition poll_once (replicas : Z) (pillowfight_pods : list (str * pyval))
  : M (list (str * pyval)) bool :=
  fun info =>
    match for_each pillowfight_pods classify
            {| counter := 0; pods_info := info |} with
    | (s, Ok _) => (pods_info s, Ok (counter s =? replicas))
    | (s, Raise e) =>
        if is_IndexError e then (pods_info s, Ok false)
        else (pods_info s, Raise e)
    end.

(** Modelled from the spec: [TimeoutSampler] of [ocs_ci.utility.utils], which
    is not among the sources.  It yields the list of the pods whose name
    matches the pattern, one sample for each period of 9 seconds, and raises
    its timeout error once [WAIT_FOR_TIME] seconds have passed ("loop ends
    with a timeout failure if timeoutSeconds elapses first").  [samples] are
    the samples it yields before that. *)
Fixpoint poll (replicas : Z) (samples : list (list (str * pyval)))
  : M (list (str * pyval)) unit :=
  match samples with
  | [] => lift (Raise TimeoutExpiredError)
  | pillowfight_pods :: samples' =>
      stop <- poll_once replicas pillowfight_pods ;;
      if stop : bool then ret tt else poll replicas samples'
  end.

(** The state of a run: [self.pods_info] and the files written in full under
    [self.logs], as (name, contents) in the order of the writes. *)
Record run_state := {
  info : list (str * pyval);
  written : list (str * str)
}.

Definition write_log (pf_endlog data : str) (s : run_state) : run_state :=
  {| info := info s; written := written s ++ [(pf_endlog, data)] |}.

(** [data.replace(NUL, empty)]: every NUL character is removed. *)
Definition drop_nul (data : str) : str :=
  filter (fun c => c <> "000"%char) data.

(** What the collection of the logs asks of its surroundings, each of which
    may raise: [logs_of h pod] is the result of [ocp_local.exec_oc_cmd] for
    [logs -f pod --ignore-errors], and [write_file h name data] that of
    opening the file [name] of [self.logs] for writing and of
    [fd.write(data)]. *)
Record host := {
  logs_of : str -> res str;
  write_file : str -> str -> res unit
}.

(** The body of [for pod, pf_completion_info in self.pods_info.items()]. *)
Definition collect (h : host) (item : str * pyval) : M run_state unit :=
  let '(pod, pf_completion_info) := item in
  if is_PStr (lit "Completed") pf_completion_info then
    let pf_endlog := pod ++ lit ".log" in
    data_from_log <- lift (logs_of h pod) ;;
    let data_from_log := drop_nul data_from_log in
    lift (write_file h pf_endlog data_from_log) ;;;
    modify (write_log pf_endlog data_from_log)
  else if is_PStr (lit "Error") pf_completion_info then
    lift (Raise (Exception FailedToComplete))
  else ret tt.

(** [run_pillowfights], after the pods have been created: [self.pods_info]
    starts empty, the polling loop fills it, and the logs of its entries are
    collected. *)
Definition run_pillowfights (replicas : Z)
  (samples : list (list (str * pyval))) (h : host)
  : run_state * res unit :=
  match poll replicas samples [] with
  | (pi, Raise e) => ({| info := pi; written := [] |}, Raise e)
  | (pi, Ok _) =>
      for_each pi (collect h) {| info := pi; written := [] |}
  end.

(** ** [PillowFight.analyze_all]

    [files] are the files of the directory [self.logs], in the order of
    [listdir], each with the text that [read] returns. *)
Fixpoint analyze_all (self : PillowFight) (files : list (str * str)) : res unit :=
  match files with
  | [] => Ok tt
  | (path, data_from_log) :: files' =>
      let? log_data := parse_pillowfight_log data_from_log in
      let? _ := sanity_check self log_data in
      analyze_all self files'
  end.

(** ** [PillowFight.export_pfoutput_to_googlesheet] *)

(** A value of a row: a string, an integer, or a float, which is the
    quotient of a true division as in [sanity_check]. *)
Inductive cell :=
| CStr (s : str)
| CInt (z : Z)
| CNum (q : Q).

(** The four values that [utils] reports for the cluster. *)
Record versions := {
  cluster_version : str;
  ocs_build_number : str;
  ceph_version : str;
  testrun_name : str
}.

(** [g_sheet.insert_row(row, index)]: the sheet is not among the sources;
    the calls are kept, in the order in which they are made. *)
Definition insert_row (row : list cell) (index : Z)
  : M (list (list cell * Z)) unit :=
  modify (fun calls => calls ++ [(row, index)]).

(** The body of [for path in listdir(self.logs)]. *)
Definition export_row (file : str * str) : M (list (list cell * Z)) unit :=
  let '(path, data_from_log) := file in
  log_data <- lift (parse_pillowfight_log data_from_log) ;;
  lo <- lift (py_min (opspersec log_data)) ;;
  hi <- lift (py_max (keys (resptimes log_data))) ;;
  q <- lift (py_truediv hi 1000) ;;
  insert_row [CStr path; CInt lo; CNum q] 2.

Definition export_pfoutput_to_googlesheet (files : list (str * str))
  (v : versions) : M (list (list cell * Z)) unit :=
  for_each files export_row ;;;
  insert_row [CStr []; CStr (lit "opspersec"); CStr (lit "resptimes")] 2 ;;;
  insert_row [CStr (lit "ocp_version:" ++ cluster_version v);
              CStr (lit "ocs_build_number:" ++ ocs_build_number v);
              CStr (lit "ceph_version:" ++ ceph_version v);
              CStr (lit "test_run_name:" ++ testrun_name v)] 2.

(** ** Vocabulary of the statements *)

(** The language of a regular expression. *)
Inductive matches : re -> str -> Prop :=
| matches_eps : matches Eps []
| matches_cls p c : p c = true -> matches (Cls p) [c]
| matches_seq r1 r2 s1 s2 :
    matches r1 s1 -> matches r2 s2 -> matches (Seq r1 r2) (s1 ++ s2)
| matches_alt_l r1 r2 s : matches r1 s -> matches (Alt r1 r2) s
| matches_alt_r r1 r2 s : matches r2 s -> matches (Alt r1 r2) s
| matches_star_nil r : matches (Star r) []
| matches_star_cons r s1 s2 :
    matches r s1 -> matches (Star r) s2 -> matches (Star r) (s1 ++ s2).

(** The number that a string of decimal digits writes. *)
Definition decimal (d : str) : Z :=
  fold_left (fun acc c => 10 * acc + digit_val c) d 0.

(** A non-empty string of decimal digits. *)
Definition numeral (d : str) : Prop := d <> [] /\ forallb isdigit d = true.

(** A string made of the character [c] only. *)
Definition run_of (c : ascii) (s : str) : Prop :=
  forallb (ascii_eqb c) s = true.

(** The text that the pattern of a bucket line matches: lower bound [lo],
    upper bound [hi], unit [u]s, a bar of [#], and the first digit [c] of the
    count. *)
Definition bucket_text (lo sp1 hi sp2 : str) (u : ascii) (bar : str) (c : ascii)
  : str :=
  lit "[" ++ lo ++ sp1 ++ lit "- " ++ hi ++ sp2 ++ lit "]" ++ [u]
    ++ lit "s |" ++ bar ++ lit " - " ++ [c].

(** [l] is a bucket line with lower bound [lo], upper bound [hi] and unit
    [u]s, whose count starts with the digit [c] and goes on in [rest]. *)
Definition bucket_line (l lo hi : str) (u c : ascii) (rest : str) : Prop :=
  exists sp1 sp2 bar,
    l = bucket_text lo sp1 hi sp2 u bar c ++ rest /\
    numeral lo /\ sp1 <> [] /\ run_of " " sp1 /\
    numeral hi /\ run_of " " sp2 /\
    (u = "u"%char \/ u = "m"%char) /\ run_of "#" bar /\ isdigit c = true.

(** No character of [s] is white space; every character of [s] is. *)
Definition nonblank (s : str) : Prop := forallb (fun c => negb (isspace c)) s = true.
Definition blank (s : str) : Prop := forallb isspace s = true.

(** ×1000 for milliseconds, ×1 for microseconds. *)
Definition scale (u : ascii) : Z := if ascii_eqb u "m" then 1000 else 1.

(** The effect of all five replacements on one character. *)
Definition scrub (c : ascii) : ascii :=
  if existsb (ascii_eqb c) elements then " "%char else c.

(** The count of a bucket line as the parser reads it: the token that starts
    with the digit [c], up to the next white space or replaced character. *)
Definition count_token (c : ascii) (rest : str) : str :=
  hd [] (split_ws (c :: map scrub rest)).

(** The bucket that a bucket line gives, if its three numbers are read. *)
Definition bucket_of (lo hi : str) (u c : ascii) (rest : str)
  : option (Z * bucket) :=
  match py_int lo, py_int hi, py_int (count_token c rest) with
  | Ok i1, Ok i2, Ok n =>
      Some (i2 * scale u, {| minindx := i1 * scale u; number := n |})
  | _, _, _ => None
  end.

(** The trailing token of an OPS/SEC line: what follows its last space. *)
Definition last_field (dline : str) : str :=
  default [] (last (split_on " " dline)).

(** [extend st d]: the record [st] after the samples of [d] have been
    appended and the buckets of [d] stored, in that order. *)
Definition extend (st d : stats) : stats :=
  {| opspersec := opspersec st ++ opspersec d;
     resptimes := resptimes d ∪ resptimes st |}.

(** What a line contributes when it is parsed on its own. *)
Definition line_stats (dline : str) : stats :=
  fst (parse_line dline empty_stats).

Definition nl : str := ["010"%char].

(** [m] is the least element of [l]; [k] is the greatest key of [d]. *)
Definition is_min (m : Z) (l : list Z) : Prop := m ∈ l /\ forall x, x ∈ l -> m <= x.
Definition is_max_key (k : Z) (d : gmap Z bucket) : Prop :=
  is_Some (d !! k) /\ forall k', is_Some (d !! k') -> k' <= k.

(** The answer of the cluster for a pod whose container has terminated with
    the reason [reason]; for a pod whose list of container statuses is empty;
    and for a pod whose status has no such list. *)
Definition terminated_pod (reason : str) : pyval :=
  PDict [(lit "status",
          PDict [(lit "containerStatuses",
                  PList [PDict [(lit "state",
                                 PDict [(lit "terminated",
                                         PDict [(lit "reason", PStr reason)])])]])])].

Definition unstarted_pod : pyval :=
  PDict [(lit "status", PDict [(lit "containerStatuses", PList [])])].

Definition pending_pod : pyval :=
  PDict [(lit "status", PDict [(lit "phase", PStr (lit "Pending"))])].

(** A sample of two pods, the first completed and the second failed. *)
Definition one_failed : list (str * pyval) :=
  [(lit "pillowfight-rbd-simple0", terminated_pod (lit "Completed"));
   (lit "pillowfight-rbd-simple1", terminated_pod (lit "Error"))].

(** Every entry of [self.pods_info] holds the reason [Completed]. *)
Definition all_completed (info0 : list (str * pyval)) : Prop :=
  Forall (fun p => p.2 = PStr STATUS_COMPLETED) info0.

(** The sample that a line gives: the integer after the last space of a line
    that starts with the OPS/SEC marker, if it reads as one. *)
Definition ops_sample (l : str) : option Z :=
  if startswith (lit "OPS/SEC") l then
    match py_int (strip (last_field l)) with
    | Ok n => Some n
    | Raise _ => None
    end
  else None.

(** The lines that the parser looks at. *)
Definition relevant (l : str) : Prop :=
  startswith (lit "OPS/SEC") l = true \/ re_match hist_pattern l = true.

#[global] Instance relevant_dec l : Decision (relevant l).
Proof. unfold relevant. apply _. Defined.

(** The state of the container of a pod, and the answer of the cluster that
    reports it. *)
Inductive container_state :=
| Terminated (reason : str)
| Running
| Waiting.

Definition state_of (st : container_state) : pyval :=
  match st with
  | Terminated reason =>
      PDict [(lit "terminated", PDict [(lit "reason", PStr reason)])]
  | Running =>
      PDict [(lit "running", PDict [(lit "startedAt", PStr (lit "now"))])]
  | Waiting =>
      PDict [(lit "waiting", PDict [(lit "reason", PStr (lit "ContainerCreating"))])]
  end.

Definition answer (st : container_state) : pyval :=
  PDict [(lit "status",
          PDict [(lit "containerStatuses",
                  PList [PDict [(lit "state", state_of st)]])])].

Definition answers (sample : list (str * container_state))
  : list (str * pyval) :=
  map (fun p => (p.1, answer p.2)) sample.

(** The pods of a sample that have terminated with the reason [Completed]. *)
Definition completed_names (sample : list (str * container_state)) : list str :=
  omap (fun p => match p.2 with
                 | Terminated reason =>
                     if bool_decide (reason = STATUS_COMPLETED)
                     then Some p.1 else None
                 | _ => None
                 end) sample.

(** [self.pods_info] after the pods [names] have been recorded. *)
Definition record_all (names : list str) (info0 : list (str * pyval))
  : list (str * pyval) :=
  foldl (fun i n => update n (PStr STATUS_COMPLETED) i) info0 names.

(** The log file written for a pod whose output is [data]. *)
Definition log_file (item : str * pyval) (data : str) : str * str :=
  (item.1 ++ lit ".log", drop_nul data).

(** The host gives the output of the pod and accepts its log file, which is
    [file]. *)
Definition logged (h : host) (item : str * pyval) (file : str * str) : Prop :=
  exists data,
    logs_of h item.1 = Ok data /\
    write_file h (log_file item data).1 (log_file item data).2 = Ok tt /\
    file = log_file item data.

(** The host raises [e] for the pod: when asked for its output, or when asked
    to write its log file. *)
Definition refused (h : host) (item : str * pyval) (e : exn) : Prop :=
  logs_of h item.1 = Raise e \/
  exists data,
    logs_of h item.1 = Ok data /\
    write_file h (log_file item data).1 (log_file item data).2 = Raise e.

(** The row that the export makes of a file: its name, the least sample and
    the float that the true division of the greatest key of its record by
    1000 gives, inserted at index 2. *)
Definition exported (file : str * str) (call : list cell * Z) : Prop :=
  exists r m k q,
    parse_pillowfight_log file.2 = Ok r /\
    is_min m (opspersec r) /\ is_max_key k (resptimes r) /\
    py_truediv k 1000 = Ok q /\
    call = ([CStr file.1; CInt m; CNum q], 2).

(** The two rows inserted after the rows of the files. *)
Definition header_row : list cell :=
  [CStr []; CStr (lit "opspersec"); CStr (lit "resptimes")].

Definition versions_row (v : versions) : list cell :=
  [CStr (lit "ocp_version:" ++ cluster_version v);
   CStr (lit "ocs_build_number:" ++ ocs_build_number v);
   CStr (lit "ceph_version:" ++ ceph_version v);
   CStr (lit "test_run_name:" ++ testrun_name v)].

(** A text that gives at least one sample and one bucket, and no key of
    [2^1000] or more in size. *)
Definition has_stats (data : str) : Prop :=
  exists r, parse_pillowfight_log data = Ok r /\
            opspersec r <> [] /\ resptimes r <> ∅ /\
            forall k, is_Some (resptimes r !! k) -> Z.abs k < 2 ^ 1000.

(** ** Characters *)

(** Case analysis on every look-up and test of [classify]. *)
Ltac classify_cases :=
  unfold classify, bind, lift, ret, modify;
  repeat match goal with
  | |- context [match ?x with _ => _ end] => destruct x eqn:?
  | |- context [if ?x then _ else _] => destruct x eqn:?
  end.

(** Case analysis on the eight bits of a character. *)
Ltac ascii_cases c :=
  destruct c as [[] [] [] [] [] [] [] []]; try reflexivity; try discriminate.

Lemma ascii_eqb_eq a b : ascii_eqb a b = true <-> a = b.
Proof. apply Ascii.eqb_eq. Qed.

Lemma ascii_eqb_refl a : ascii_eqb a a = true.
Proof. apply Ascii.eqb_refl. Qed.

Lemma isdigit_not_space c : isdigit c = true -> isspace c = false.
Proof. ascii_cases c. Qed.

Lemma isdigit_scrub c : isdigit c = true -> scrub c = c.
Proof. ascii_cases c. Qed.

Lemma isdigit_not_sign c :
  isdigit c = true -> ascii_eqb c "-" = false /\ ascii_eqb c "+" = false.
Proof. ascii_cases c; intros _; split; reflexivity. Qed.

Lemma digit_val_range c : isdigit c = true -> 0 <= digit_val c <= 9.
Proof. ascii_cases c; intros _; vm_compute; split; discriminate. Qed.

(** ** The matcher computes membership of a prefix in the language *)

Lemma nullable_matches r : nullable r = true <-> matches r [].
Proof.
  induction r as [| |p|r1 IH1 r2 IH2|r1 IH1 r2 IH2|r IH]; simpl.
  - split; [discriminate | inversion 1].
  - split; [constructor | reflexivity].
  - split; [discriminate | inversion 1].
  - rewrite andb_true_iff, IH1, IH2. split.
    + intros [H1 H2]. apply (matches_seq _ _ [] [] H1 H2).
    + inversion 1 as [| |? ? s1 s2 H1 H2 E1 E2| | | |]; subst.
      apply app_eq_nil in E2 as [-> ->]. auto.
  - rewrite orb_true_iff, IH1, IH2. split.
    + intros [H|H]; [apply matches_alt_l | apply matches_alt_r]; exact H.
    + inversion 1; subst; auto.
  - split; [constructor | reflexivity].
Qed.

Lemma deriv_sound c r : forall s, matches (deriv c r) s -> matches r (c :: s).
Proof.
  induction r as [| |p|r1 IH1 r2 IH2|r1 IH1 r2 IH2|r IH]; simpl; intros s H.
  - inversion H.
  - inversion H.
  - destruct (p c) eqn:Hp; inversion H; subst. constructor. exact Hp.
  - destruct (nullable r1) eqn:Hn.
    + inversion H as [| | |? ? ? HL|? ? ? HR| |]; subst.
      * inversion HL as [| |? ? s1 s2 H1 H2| | | |]; subst.
        apply (matches_seq _ _ (c :: s1) s2); auto.
      * apply (matches_seq _ _ [] (c :: s)); auto.
        apply nullable_matches. exact Hn.
    + inversion H as [| |? ? s1 s2 H1 H2| | | |]; subst.
      apply (matches_seq _ _ (c :: s1) s2); auto.
  - inversion H; subst; [apply matches_alt_l | apply matches_alt_r]; auto.
  - inversion H as [| |? ? s1 s2 H1 H2| | | |]; subst.
    apply (matches_star_cons _ (c :: s1) s2); auto.
Qed.

Lemma deriv_complete c r s0 :
  matches r s0 -> forall s, s0 = c :: s -> matches (deriv c r) s.
Proof.
  induction 1 as [|p a Hp|r1 r2 s1 s2 H1 IH1 H2 IH2|r1 r2 s0 H IH|r1 r2 s0 H IH
                 |r|r s1 s2 H1 IH1 H2 IH2]; intros s E; simpl.
  - discriminate.
  - injection E as -> <-. rewrite Hp. constructor.
  - destruct s1 as [|a s1']; simpl in E.
    + assert (Hn : nullable r1 = true) by (apply nullable_matches; exact H1).
      rewrite Hn. apply matches_alt_r. auto.
    + injection E as -> <-.
      assert (HS : matches (Seq (deriv c r1) r2) (s1' ++ s2))
        by (constructor; auto).
      destruct (nullable r1); [apply matches_alt_l|]; exact HS.
  - apply matches_alt_l. auto.
  - apply matches_alt_r. auto.
  - discriminate.
  - destruct s1 as [|a s1']; simpl in E.
    + apply IH2. exact E.
    + injection E as -> <-. constructor; auto.
Qed.

Lemma re_match_spec r s :
  re_match r s = true <-> exists p q, s = p ++ q /\ matches r p.
Proof.
  revert r. induction s as [|c s IH]; intros r; simpl.
  - rewrite orb_false_r, nullable_matches. split.
    + intros H. exists [], []. auto.
    + intros (p & q & E & H). symmetry in E.
      apply app_eq_nil in E as [-> ->]. exact H.
  - rewrite orb_true_iff, nullable_matches, IH. split.
    + intros [H|(p & q & -> & H)].
      * exists [], (c :: s). auto.
      * exists (c :: p), q. split; [reflexivity|]. apply deriv_sound. exact H.
    + intros (p & q & E & H). destruct p as [|a p]; simpl in E.
      * left. exact H.
      * injection E as <- ->. right. exists p, q. split; [reflexivity|].
        apply (deriv_complete _ _ _ H). reflexivity.
Qed.

(** ** The lines that the bucket pattern matches *)

Lemma matches_Seq_inv r1 r2 s :
  matches (Seq r1 r2) s ->
  exists s1 s2, s = s1 ++ s2 /\ matches r1 s1 /\ matches r2 s2.
Proof. inversion 1; subst; eauto. Qed.

Lemma matches_Cls_inv p s :
  matches (Cls p) s -> exists c, s = [c] /\ p c = true.
Proof. inversion 1; subst; eauto. Qed.

Lemma matches_Chr_inv c s : matches (Chr c) s -> s = [c].
Proof.
  intros H. apply matches_Cls_inv in H as (a & -> & Ha).
  apply ascii_eqb_eq in Ha. by subst.
Qed.

Lemma matches_Star_Cls_inv p s :
  matches (Star (Cls p)) s -> forallb p s = true.
Proof.
  intros H. remember (Star (Cls p)) as r eqn:E.
  induction H as [| | | | | |r s1 s2 H1 _ H2 IH2]; try discriminate.
  - reflexivity.
  - injection E as ->. apply matches_Cls_inv in H1 as (c & -> & Hc).
    simpl. rewrite Hc. auto.
Qed.

Lemma matches_Plus_Cls_inv p s :
  matches (Plus (Cls p)) s -> s <> [] /\ forallb p s = true.
Proof.
  intros H. apply matches_Seq_inv in H as (s1 & s2 & -> & H1 & H2).
  apply matches_Cls_inv in H1 as (c & -> & Hc).
  apply matches_Star_Cls_inv in H2. simpl. rewrite Hc. auto.
Qed.

Lemma matches_Star_Cls p s : forallb p s = true -> matches (Star (Cls p)) s.
Proof.
  induction s as [|c s IH]; simpl; intros H; [constructor|].
  apply andb_true_iff in H as [Hc Hs].
  apply (matches_star_cons _ [c] s); [by constructor | auto].
Qed.

Lemma matches_Plus_Cls p s :
  s <> [] -> forallb p s = true -> matches (Plus (Cls p)) s.
Proof.
  destruct s as [|c s]; [done|]. simpl. intros _ H.
  apply andb_true_iff in H as [Hc Hs].
  apply (matches_seq _ _ [c] s); [by constructor | by apply matches_Star_Cls].
Qed.

Lemma matches_Chr c : matches (Chr c) [c].
Proof. constructor. apply ascii_eqb_refl. Qed.

Lemma hist_pattern_inv l :
  re_match hist_pattern l = true ->
  exists lo hi u c rest, bucket_line l lo hi u c rest.
Proof.
  rewrite re_match_spec. intros (p & q & -> & H).
  unfold hist_pattern in H. cbn [Seqs] in H.
  repeat match goal with
  | H : matches (Seq _ _) _ |- _ =>
      let s1 := fresh "s" in let s2 := fresh "t" in
      let H1 := fresh "H" in
      apply matches_Seq_inv in H as (s1 & s2 & -> & H1 & H)
  end.
  repeat match goal with
  | H : matches (Chr _) _ |- _ => apply matches_Chr_inv in H as ->
  end.
  match goal with H : matches (Cls _) _ |- _ =>
    apply matches_Cls_inv in H as (u & -> & Hu) end.
  repeat match goal with
  | H : matches (Star _) _ |- _ => apply matches_Star_Cls_inv in H
  end.
  repeat match goal with
  | H : matches (Plus _) _ |- _ => apply matches_Plus_Cls_inv in H as [? ?]
  end.
  rewrite <- !app_assoc.
  match goal with
  | H : ?s <> [], F : forallb isdigit ?s = true |- context [ ?s ++ q ] =>
      destruct s as [|c cnt]; [done|]; simpl in F;
      apply andb_true_iff in F as [Hc Hcnt]
  end.
  match goal with
  | |- context [ ["["%char] ++ ?lo ++ ?sp1 ++ ["-"%char] ++ [" "%char] ++ ?hi ++ ?sp2 ++ _ ++ _ ++ _ ++ _ ++ _ ++ ?bar ++ _ ] =>
      exists lo, hi, u, c, (cnt ++ q), sp1, sp2, bar
  end.
  unfold bucket_text, numeral, run_of, lit; simpl.
  repeat split; try assumption.
  - repeat (rewrite <- ?app_assoc; simpl). reflexivity.
  - apply orb_true_iff in Hu as [Hu|Hu]; apply ascii_eqb_eq in Hu; auto.
Qed.

Lemma bucket_line_matches l lo hi u c rest :
  bucket_line l lo hi u c rest -> re_match hist_pattern l = true.
Proof.
  intros (sp1 & sp2 & bar & -> & [Hlo1 Hlo2] & Hsp1 & Hsp1' & [Hhi1 Hhi2]
          & Hsp2 & Hu & Hbar & Hc).
  apply re_match_spec. eexists _, rest. split; [reflexivity|].
  unfold bucket_text, hist_pattern, lit.
  cbn [Seqs list_ascii_of_string String.string_rect app].
  repeat match goal with
  | |- matches (Seq (Chr _) _) _ =>
      apply (matches_seq _ _ [_] _); [apply matches_Chr|]
  | |- matches (Seq (Cls _) _) _ =>
      apply (matches_seq _ _ [_] _);
      [constructor; destruct Hu as [-> | ->]; reflexivity|]
  | |- matches (Seq (Plus _) _) _ =>
      apply matches_seq; [by apply matches_Plus_Cls|]
  | |- matches (Seq (Star _) _) _ =>
      apply matches_seq; [by apply matches_Star_Cls|]
  end.
  apply (matches_Plus_Cls _ [c]); [done|]. simpl. by rewrite Hc.
Qed.

(** The bucket lines are the lines that [re.match] accepts. *)
Lemma hist_pattern_bucket_line l :
  re_match hist_pattern l = true <->
  exists lo hi u c rest, bucket_line l lo hi u c rest.
Proof.
  split; [apply hist_pattern_inv|].
  intros (lo & hi & u & c & rest & H). by eapply bucket_line_matches.
Qed.

(** ** Splitting, stripping and reading numbers *)

Lemma scrub_fold l :
  fold_left (fun d element => replace element " " d) elements l = map scrub l.
Proof.
  unfold elements, replace. simpl. rewrite !map_map.
  apply map_ext. intros c. ascii_cases c.
Qed.

Lemma split_ws_blank sp s : blank sp -> split_ws (sp ++ s) = split_ws s.
Proof.
  unfold blank. induction sp as [|c sp IH]; simpl; [done|].
  intros H. apply andb_true_iff in H as [Hc Hsp]. rewrite Hc. auto.
Qed.

Lemma split_ws_cons c s :
  split_ws (c :: s) =
  if isspace c then split_ws s
  else match s with
       | [] => [[c]]
       | d :: _ =>
           if isspace d then [c] :: split_ws s
           else match split_ws s with
                | t :: ts => (c :: t) :: ts
                | [] => [[c]]
                end
       end.
Proof. reflexivity. Qed.

Lemma split_ws_token tok w s :
  tok <> [] -> nonblank tok -> isspace w = true ->
  split_ws (tok ++ w :: s) = tok :: split_ws s.
Proof.
  unfold nonblank. intros Hne Htok Hw.
  induction tok as [|c tok IH]; [done|].
  simpl in Htok. apply andb_true_iff in Htok as [Hc Htok].
  apply negb_true_iff in Hc.
  cbn [app]. rewrite split_ws_cons, Hc.
  destruct tok as [|d tok]; cbn [app].
  - by rewrite Hw, split_ws_cons, Hw.
  - pose proof Htok as Htok'. simpl in Htok'.
    apply andb_true_iff in Htok' as [Hd _]. apply negb_true_iff in Hd.
    rewrite Hd. cbn [app] in IH. rewrite IH; done.
Qed.

Lemma split_ws_tok tok sp s :
  tok <> [] -> nonblank tok -> sp <> [] -> blank sp ->
  split_ws (tok ++ sp ++ s) = tok :: split_ws s.
Proof.
  intros Hne Htok Hsp Hb. destruct sp as [|w sp]; [done|].
  unfold blank in Hb. simpl in Hb. apply andb_true_iff in Hb as [Hw Hb].
  simpl. rewrite split_ws_token by done. by rewrite split_ws_blank.
Qed.

Lemma split_ws_head c s :
  isspace c = false -> exists t ts, split_ws (c :: s) = t :: ts.
Proof.
  intros Hc. simpl. rewrite Hc. destruct s as [|d s]; [eauto|].
  destruct (isspace d); [eauto|]. destruct (split_ws (d :: s)); eauto.
Qed.

Lemma numeral_nonblank d : forallb isdigit d = true -> nonblank d.
Proof.
  unfold nonblank. induction d as [|c d IH]; simpl; [done|].
  intros H. apply andb_true_iff in H as [Hc Hd].
  rewrite (isdigit_not_space _ Hc). simpl. auto.
Qed.

Lemma numeral_scrub d : forallb isdigit d = true -> map scrub d = d.
Proof.
  induction d as [|c d IH]; simpl; [done|].
  intros H. apply andb_true_iff in H as [Hc Hd].
  rewrite (isdigit_scrub _ Hc), IH; done.
Qed.

Lemma run_scrub_blank a s :
  isspace (scrub a) = true -> run_of a s -> blank (map scrub s).
Proof.
  unfold run_of, blank. intros Ha. induction s as [|c s IH]; simpl; [done|].
  intros H. apply andb_true_iff in H as [Hc Hs].
  apply ascii_eqb_eq in Hc as <-. rewrite Ha. auto.
Qed.

Lemma blank_app s t : blank s -> blank t -> blank (s ++ t).
Proof. unfold blank. rewrite forallb_app. by intros -> ->. Qed.

Lemma lstrip_nonblank s : nonblank s -> lstrip s = s.
Proof.
  unfold nonblank. destruct s as [|c s]; simpl; [done|].
  intros H. apply andb_true_iff in H as [Hc _].
  apply negb_true_iff in Hc. by rewrite Hc.
Qed.

Lemma nonblank_rev s : nonblank s -> nonblank (rev s).
Proof.
  unfold nonblank. rewrite !forallb_forall. intros H c Hc.
  apply H. by apply in_rev.
Qed.

Lemma strip_nonblank s : nonblank s -> strip s = s.
Proof.
  intros H. unfold strip. rewrite (lstrip_nonblank s H).
  rewrite (lstrip_nonblank _ (nonblank_rev _ H)). apply rev_involutive.
Qed.

Lemma int_digits_numeral d :
  forall acc, forallb isdigit d = true ->
  int_digits acc d = Some (fold_left (fun a c => 10 * a + digit_val c) d acc).
Proof.
  induction d as [|c d IH]; simpl; intros acc H; [done|].
  apply andb_true_iff in H as [Hc Hd]. rewrite Hc. auto.
Qed.

Lemma count_digits_numeral d : forallb isdigit d = true -> count_digits d = length d.
Proof.
  unfold count_digits. induction d as [|c d IH]; simpl; [done|].
  intros H. apply andb_true_iff in H as [-> Hd]. simpl. by rewrite IH.
Qed.

(** A string of digits reads as the number it writes, unless it has more
    digits than [int()] takes. *)
Lemma py_int_numeral d :
  numeral d ->
  py_int d = if (length d <=? int_max_str_digits)%nat then Ok (decimal d)
             else Raise ValueError.
Proof.
  intros [Hne Hd]. unfold py_int.
  rewrite (strip_nonblank _ (numeral_nonblank _ Hd)).
  rewrite (count_digits_numeral _ Hd).
  destruct d as [|c d]; [done|]. pose proof Hd as Hd'. simpl in Hd'.
  apply andb_true_iff in Hd' as [Hc Hd'].
  destruct (isdigit_not_sign _ Hc) as [-> ->].
  unfold int_unsigned. rewrite Hc, (int_digits_numeral _ _ Hd').
  unfold decimal. cbn [fold_left]. by rewrite Z.mul_0_r, Z.add_0_l.
Qed.

Lemma py_int_numeral_Ok d i : numeral d -> py_int d = Ok i -> i = decimal d.
Proof.
  intros Hd. rewrite (py_int_numeral _ Hd).
  destruct (length d <=? int_max_str_digits)%nat; [|done]. by intros [= <-].
Qed.


(** ** One line of the log *)

Lemma bucket_line_parts l lo hi u c rest :
  bucket_line l lo hi u c rest ->
  exists ts, split_ws (map scrub l)
             = lo :: hi :: [u; "s"%char] :: count_token c rest :: ts.
Proof.
  intros (sp1 & sp2 & bar & -> & [Hlo1 Hlo2] & Hsp1 & Hsp1' & [Hhi1 Hhi2]
          & Hsp2 & Hu & Hbar & Hc).
  assert (Hsc : isspace (scrub " ") = true) by reflexivity.
  assert (Hsh : isspace (scrub "#") = true) by reflexivity.
  assert (E : map scrub (bucket_text lo sp1 hi sp2 u bar c ++ rest)
              = [" "%char] ++ lo ++ (map scrub sp1 ++ lit "  ") ++ hi
                ++ (map scrub sp2 ++ lit " ") ++ [u; "s"%char]
                ++ (lit "  " ++ map scrub bar ++ lit "   ")
                ++ c :: map scrub rest).
  { unfold bucket_text, lit. cbn [list_ascii_of_string].
    rewrite !map_app. cbn [map].
    rewrite (numeral_scrub lo), (numeral_scrub hi), (isdigit_scrub c) by done.
    replace (scrub u) with u by (destruct Hu as [-> | ->]; reflexivity).
    rewrite <- !app_assoc. reflexivity. }
  rewrite E.
  rewrite (split_ws_blank [" "%char]) by reflexivity.
  rewrite (split_ws_tok lo); [|done|by apply numeral_nonblank| |].
  2:{ destruct sp1; [done|]. discriminate. }
  2:{ apply blank_app; [by apply (run_scrub_blank " ") | reflexivity]. }
  rewrite (split_ws_tok hi); [|done|by apply numeral_nonblank| |].
  2:{ intros H. apply app_eq_nil in H as [_ H]. discriminate. }
  2:{ apply blank_app; [by apply (run_scrub_blank " ") | reflexivity]. }
  rewrite (split_ws_tok [u; "s"%char]); [|done| | |].
  2:{ destruct Hu as [-> | ->]; reflexivity. }
  2:{ discriminate. }
  2:{ apply blank_app; [reflexivity|].
      apply blank_app; [by apply (run_scrub_blank "#") | reflexivity]. }
  destruct (split_ws_head c (map scrub rest) (isdigit_not_space _ Hc))
    as (t & ts & Et).
  unfold count_token. rewrite Et. eauto.
Qed.

Lemma bucket_line_not_ops l lo hi u c rest :
  bucket_line l lo hi u c rest -> startswith (lit "OPS/SEC") l = false.
Proof. intros (sp1 & sp2 & bar & -> & _). reflexivity. Qed.

(** The limit of [int()] on the digits: a numeral of 4300 digits is read,
    one of 4301 digits is refused, and an OPS/SEC line or a bucket line that
    carries it gives no sample and no bucket. *)
Lemma py_int_limit_example :
  py_int (replicate 4300 "1"%char) = Ok (decimal (replicate 4300 "1"%char)) /\
  py_int (replicate 4301 "1"%char) = Raise ValueError /\
  ops_sample (lit "OPS/SEC " ++ replicate 4301 "1"%char) = None /\
  bucket_of (lit "0") (replicate 4301 "1"%char) "u" "-" (lit " 5") = None.
Proof. split; [|split; [|split]]; vm_compute; reflexivity. Qed.

Lemma py_int_raises s e : py_int s = Raise e -> e = ValueError.
Proof.
  unfold py_int.
  destruct (match strip s with [] => None | _ => _ end);
    [destruct (_ <=? _)%nat|]; [discriminate| |]; by intros [= <-].
Qed.

(** What the [try] body does on a bucket line. *)
Lemma try_body_bucket l lo hi u c rest st :
  bucket_line l lo hi u c rest ->
  try_body l st =
  match bucket_of lo hi u c rest with
  | Some (k, b) => (set_resp k b st, Ok tt)
  | None => (st, Raise ValueError)
  end.
Proof.
  intros HL. unfold try_body.
  rewrite (bucket_line_not_ops _ _ _ _ _ _ HL).
  rewrite (bucket_line_matches _ _ _ _ _ _ HL), scrub_fold.
  destruct (bucket_line_parts _ _ _ _ _ _ HL) as (ts & ->).
  destruct HL as (sp1 & sp2 & bar & _ & Hlo & _ & _ & Hhi & _ & Hu & _).
  unfold bind, lift, ret, modify, index, bucket_of.
  cbn [lookup list_lookup].
  destruct (py_int lo) as [i1|e1] eqn:E1;
    [|by rewrite (py_int_raises _ _ E1)].
  destruct (py_int hi) as [i2|e2] eqn:E2;
    [|by rewrite (py_int_raises _ _ E2)].
  destruct (py_int (count_token c rest)) as [n|e3] eqn:E3.
  - destruct Hu as [-> | ->].
    + rewrite bool_decide_eq_false_2 by discriminate.
      change (scale "u") with 1. by rewrite !Z.mul_1_r.
    + rewrite bool_decide_eq_true_2 by reflexivity. done.
  - rewrite (py_int_raises _ _ E3). by destruct (bool_decide _).
Qed.


Lemma split_on_nonempty sep s : split_on sep s <> [].
Proof.
  destruct s as [|c s]; simpl; [done|].
  destruct (ascii_eqb c sep); [done|]. by destruct (split_on sep s).
Qed.

Lemma index_last_split dline :
  index_last (split_on " " dline) = Ok (last_field dline).
Proof.
  unfold index_last, last_field.
  destruct (last (split_on " " dline)) eqn:E; [done|].
  apply last_None in E. by apply split_on_nonempty in E.
Qed.

Lemma ops_line_no_bucket l :
  startswith (lit "OPS/SEC") l = true -> re_match hist_pattern l = false.
Proof.
  intros H. destruct (re_match hist_pattern l) eqn:E; [|done].
  apply hist_pattern_inv in E as (lo & hi & u & c & rest & HL).
  rewrite (bucket_line_not_ops _ _ _ _ _ _ HL) in H. discriminate.
Qed.

(** A bucket line stores one bucket, or nothing when one of its numbers does
    not read as an integer. *)
Lemma parse_line_bucket l lo hi u c rest st :
  bucket_line l lo hi u c rest ->
  parse_line l st =
  (match bucket_of lo hi u c rest with
   | Some (k, b) => set_resp k b st
   | None => st
   end, Ok tt).
Proof.
  intros HL. unfold parse_line, try_except.
  rewrite (try_body_bucket _ _ _ _ _ _ _ HL).
  by destruct (bucket_of lo hi u c rest) as [[k b]|].
Qed.

(** An OPS/SEC line appends one sample, or nothing when its trailing token
    does not read as an integer. *)
Lemma parse_line_ops l st :
  startswith (lit "OPS/SEC") l = true ->
  parse_line l st =
  match py_int (strip (last_field l)) with
  | Ok dnumb => (append_ops dnumb st, Ok tt)
  | Raise _ => (st, Ok tt)
  end.
Proof.
  intros H. unfold parse_line, try_except, try_body.
  rewrite H, (ops_line_no_bucket _ H), index_last_split.
  unfold bind, lift, ret, modify.
  destruct (py_int (strip (last_field l))) eqn:E; [done|].
  by rewrite (py_int_raises _ _ E).
Qed.

(** Any other line is skipped. *)
Lemma parse_line_other l st :
  startswith (lit "OPS/SEC") l = false -> re_match hist_pattern l = false ->
  parse_line l st = (st, Ok tt).
Proof.
  intros H1 H2. unfold parse_line, try_except, try_body. by rewrite H1, H2.
Qed.

Lemma extend_empty st : extend st empty_stats = st.
Proof.
  destruct st as [ops h]. unfold extend, empty_stats. simpl.
  by rewrite app_nil_r, (left_id_L ∅ (∪)).
Qed.

Lemma extend_append n st : extend st (append_ops n empty_stats) = append_ops n st.
Proof.
  destruct st as [ops h]. unfold extend, append_ops, empty_stats. simpl.
  by rewrite (left_id_L ∅ (∪)).
Qed.

Lemma extend_set k b st : extend st (set_resp k b empty_stats) = set_resp k b st.
Proof.
  destruct st as [ops h]. unfold extend, set_resp, empty_stats. simpl.
  by rewrite app_nil_r, insert_empty, <- insert_union_singleton_l.
Qed.

(** The parser never raises on a line, and what a line contributes does not
    depend on the lines before it. *)
Lemma parse_line_extend l st :
  parse_line l st = (extend st (line_stats l), Ok tt).
Proof.
  unfold line_stats.
  destruct (re_match hist_pattern l) eqn:Hre.
  - apply hist_pattern_inv in Hre as (lo & hi & u & c & rest & HL).
    rewrite !(parse_line_bucket _ _ _ _ _ _ _ HL).
    destruct (bucket_of lo hi u c rest) as [[k b]|]; simpl;
      by rewrite ?extend_set, ?extend_empty.
  - destruct (startswith (lit "OPS/SEC") l) eqn:Hops.
    + rewrite !(parse_line_ops _ _ Hops).
      destruct (py_int (strip (last_field l))); simpl;
        by rewrite ?extend_append, ?extend_empty.
    + rewrite !(parse_line_other _ _ Hops Hre). simpl.
      by rewrite extend_empty.
Qed.

Lemma parse_lines_cons l ls st :
  parse_lines (l :: ls) st = parse_lines ls (extend st (line_stats l)).
Proof.
  unfold parse_lines. cbn [for_each]. unfold bind.
  by rewrite parse_line_extend.
Qed.

Lemma parse_lines_app ls1 ls2 st :
  parse_lines (ls1 ++ ls2) st
  = parse_lines ls2 (fst (parse_lines ls1 st)).
Proof.
  revert st. induction ls1 as [|l ls1 IH]; intros st; [done|].
  cbn [app]. rewrite !parse_lines_cons. apply IH.
Qed.

Lemma parse_lines_ok ls st : snd (parse_lines ls st) = Ok tt.
Proof.
  revert st. induction ls as [|l ls IH]; intros st; [done|].
  rewrite parse_lines_cons. apply IH.
Qed.

(** [parse_pillowfight_log] returns a record for every text. *)
Lemma parse_pillowfight_log_ok data :
  parse_pillowfight_log data
  = Ok (fst (parse_lines (split_on "010" data) empty_stats)).
Proof.
  unfold parse_pillowfight_log.
  pose proof (parse_lines_ok (split_on "010" data) empty_stats) as H.
  destruct (parse_lines (split_on "010" data) empty_stats) as [st r].
  simpl in *. by subst.
Qed.

(** ** The record returned for a text *)

Lemma bucket_of_Some lo hi u c rest k b :
  numeral lo -> numeral hi ->
  bucket_of lo hi u c rest = Some (k, b) <->
  exists n, py_int lo = Ok (decimal lo) /\ py_int hi = Ok (decimal hi) /\
            py_int (count_token c rest) = Ok n /\
            k = decimal hi * scale u /\
            b = {| minindx := decimal lo * scale u; number := n |}.
Proof.
  intros Hlo Hhi. unfold bucket_of. split.
  - destruct (py_int lo) as [i1|] eqn:E1; [|done].
    destruct (py_int hi) as [i2|] eqn:E2; [|done].
    destruct (py_int (count_token c rest)) as [n|]; [|done].
    apply (py_int_numeral_Ok _ _ Hlo) in E1 as ->.
    apply (py_int_numeral_Ok _ _ Hhi) in E2 as ->.
    intros [= <- <-]. by exists n.
  - intros (n & -> & -> & -> & -> & ->). done.
Qed.

Lemma line_stats_bucket l lo hi u c rest i1 i2 n :
  bucket_line l lo hi u c rest ->
  py_int lo = Ok i1 -> py_int hi = Ok i2 ->
  py_int (count_token c rest) = Ok n ->
  line_stats l = set_resp (i2 * scale u)
                   {| minindx := i1 * scale u; number := n |}
                   empty_stats.
Proof.
  intros HL H1 H2 Hn. unfold line_stats.
  rewrite (parse_line_bucket _ _ _ _ _ _ _ HL). unfold bucket_of.
  by rewrite H1, H2, Hn.
Qed.

(** A bucket that a line stores comes from the bounds written on it, all
    three numbers of the line being read. *)
Lemma line_stats_lookup_read l k b :
  resptimes (line_stats l) !! k = Some b ->
  exists lo hi u c rest n,
    bucket_line l lo hi u c rest /\
    py_int lo = Ok (decimal lo) /\ py_int hi = Ok (decimal hi) /\
    py_int (count_token c rest) = Ok n /\
    k = decimal hi * scale u /\
    b = {| minindx := decimal lo * scale u; number := n |}.
Proof.
  unfold line_stats. intros H.
  destruct (re_match hist_pattern l) eqn:Hre.
  - apply hist_pattern_inv in Hre as (lo & hi & u & c & rest & HL).
    rewrite (parse_line_bucket _ _ _ _ _ _ _ HL) in H.
    destruct (bucket_of lo hi u c rest) as [[k' b']|] eqn:E; simpl in H;
      [|done].
    apply lookup_insert_Some in H as [[<- <-]|[_ H]]; [|done].
    pose proof HL as (_ & _ & _ & _ & Hlo & _ & _ & Hhi & _).
    apply (bucket_of_Some _ _ _ _ _ _ _ Hlo Hhi) in E
      as (n & E1 & E2 & E3 & -> & ->).
    by exists lo, hi, u, c, rest, n.
  - destruct (startswith (lit "OPS/SEC") l) eqn:Hops.
    + rewrite (parse_line_ops _ _ Hops) in H.
      by destruct (py_int (strip (last_field l))).
    + by rewrite (parse_line_other _ _ Hops Hre) in H.
Qed.

Lemma line_stats_lookup l k b :
  resptimes (line_stats l) !! k = Some b ->
  exists lo hi u c rest n,
    bucket_line l lo hi u c rest /\ py_int (count_token c rest) = Ok n /\
    k = decimal hi * scale u /\
    b = {| minindx := decimal lo * scale u; number := n |}.
Proof.
  intros H. apply line_stats_lookup_read in H
    as (lo & hi & u & c & rest & n & HL & _ & _ & Hn & -> & ->).
  by exists lo, hi, u, c, rest, n.
Qed.

Lemma parse_lines_lookup_later ls st k :
  (forall l, l ∈ ls -> resptimes (line_stats l) !! k = None) ->
  resptimes (fst (parse_lines ls st)) !! k = resptimes st !! k.
Proof.
  revert st. induction ls as [|l ls IH]; intros st H; [done|].
  rewrite parse_lines_cons, IH.
  - simpl. rewrite lookup_union_r; [done|]. apply H. left.
  - intros l' Hl'. apply H. by right.
Qed.

Lemma parse_lines_lookup_from ls st k b :
  resptimes (fst (parse_lines ls st)) !! k = Some b ->
  resptimes st !! k = Some b \/
  exists l, l ∈ ls /\ resptimes (line_stats l) !! k = Some b.
Proof.
  revert st. induction ls as [|l ls IH]; intros st H; [by left|].
  rewrite parse_lines_cons in H. apply IH in H as [H|(l' & Hl' & H)].
  - simpl in H. apply lookup_union_Some_raw in H as [H|[_ H]].
    + right. exists l. split; [left | done].
    + by left.
  - right. exists l'. split; [by right | done].
Qed.

(** The bucket of a line is in the record when no later line stores its
    key. *)
Lemma parse_lookup_last data pre l post k b :
  split_on "010" data = pre ++ l :: post ->
  resptimes (line_stats l) !! k = Some b ->
  (forall l', l' ∈ post -> resptimes (line_stats l') !! k = None) ->
  exists r, parse_pillowfight_log data = Ok r /\ resptimes r !! k = Some b.
Proof.
  intros Hs Hl Hpost. eexists. split; [apply parse_pillowfight_log_ok|].
  rewrite Hs, parse_lines_app, parse_lines_cons.
  rewrite (parse_lines_lookup_later _ _ _ Hpost). simpl.
  by apply lookup_union_Some_l.
Qed.

Lemma parse_lines_lookup_congr ls st st' k :
  resptimes st !! k = resptimes st' !! k ->
  resptimes (fst (parse_lines ls st)) !! k
  = resptimes (fst (parse_lines ls st')) !! k.
Proof.
  revert st st'. induction ls as [|l ls IH]; intros st st' H; [done|].
  rewrite !parse_lines_cons. apply IH. simpl.
  rewrite !lookup_union. by rewrite H.
Qed.

Lemma extend_assoc a b c : extend (extend a b) c = extend a (extend b c).
Proof.
  unfold extend. simpl. by rewrite app_assoc, (assoc_L (∪)).
Qed.

Lemma extend_empty_l d : extend empty_stats d = d.
Proof.
  destruct d as [ops h]. unfold extend, empty_stats. simpl.
  by rewrite (right_id_L ∅ (∪)).
Qed.

(** Parsing some lines after a record extends the record by what the lines
    give on their own. *)
Lemma parse_lines_extend ls st :
  fst (parse_lines ls st) = extend st (fst (parse_lines ls empty_stats)).
Proof.
  revert st. induction ls as [|l ls IH]; intros st.
  - simpl. by rewrite extend_empty.
  - rewrite !parse_lines_cons, IH, (IH (extend empty_stats _)).
    by rewrite extend_empty_l, extend_assoc.
Qed.

Lemma line_stats_ops l :
  opspersec (line_stats l)
  = match ops_sample l with Some n => [n] | None => [] end.
Proof.
  unfold line_stats, ops_sample.
  destruct (startswith (lit "OPS/SEC") l) eqn:Hops.
  - rewrite (parse_line_ops _ _ Hops).
    by destruct (py_int (strip (last_field l))).
  - destruct (re_match hist_pattern l) eqn:Hre.
    + apply hist_pattern_inv in Hre as (lo & hi & u & c & rest & HL).
      rewrite (parse_line_bucket _ _ _ _ _ _ _ HL).
      by destruct (bucket_of lo hi u c rest) as [[k b]|].
    + by rewrite (parse_line_other _ _ Hops Hre).
Qed.

Lemma parse_lines_ops ls st :
  opspersec (fst (parse_lines ls st)) = opspersec st ++ omap ops_sample ls.
Proof.
  revert st. induction ls as [|l ls IH]; intros st.
  - simpl. by rewrite app_nil_r.
  - rewrite parse_lines_cons, IH. simpl. rewrite line_stats_ops, <- app_assoc.
    by destruct (ops_sample l).
Qed.

Lemma parse_lines_has_key ls st k :
  is_Some (resptimes (fst (parse_lines ls st)) !! k) <->
  is_Some (resptimes st !! k) \/
  exists l, l ∈ ls /\ is_Some (resptimes (line_stats l) !! k).
Proof.
  revert st. induction ls as [|l ls IH]; intros st.
  - simpl. split; [by left|]. intros [H|(l & Hl & _)]; [done|].
    by apply elem_of_nil in Hl.
  - rewrite parse_lines_cons, IH. simpl. rewrite lookup_union_is_Some. split.
    + intros [[H|H]|(l' & Hl' & H)].
      * right. exists l. split; [left | done].
      * by left.
      * right. exists l'. split; [by right | done].
    + intros [H|(l' & [->|Hl']%elem_of_cons & H)].
      * left. by right.
      * left. by left.
      * right. by exists l'.
Qed.

Lemma parse_samples data :
  exists r, parse_pillowfight_log data = Ok r /\
            opspersec r = omap ops_sample (split_on "010" data).
Proof.
  eexists. split; [apply parse_pillowfight_log_ok|].
  by rewrite parse_lines_ops.
Qed.

(** ** Claims about [parse_pillowfight_log] *)

(** C7: a line that starts with the OPS/SEC marker and whose trailing token
    does not read as an integer does not make the parser raise and adds no
    sample; the lines before it and after it are parsed all the same: the
    samples of the record are those of the other lines, in their order, every
    bucket line among the other lines whose numbers are read has its key in
    the histogram, and the record is the one that the other lines give
    without the malformed line. *)
Theorem parse_skips_malformed_ops_line data pre bad post :
  split_on "010" data = pre ++ bad :: post ->
  startswith (lit "OPS/SEC") bad = true ->
  py_int (strip (last_field bad)) = Raise ValueError ->
  exists r, parse_pillowfight_log data = Ok r /\
    opspersec r = omap ops_sample pre ++ omap ops_sample post /\
    (forall l lo hi u c rest k b,
       l ∈ pre ++ post -> bucket_line l lo hi u c rest ->
       bucket_of lo hi u c rest = Some (k, b) ->
       is_Some (resptimes r !! k)) /\
    parse_lines (pre ++ post) empty_stats = (r, Ok tt).
Proof.
  intros Hs Hops Hint.
  assert (E : forall st, parse_lines (bad :: post) st = parse_lines post st).
  { intros st. rewrite parse_lines_cons. unfold line_stats.
    by rewrite (parse_line_ops _ _ Hops), Hint, extend_empty. }
  assert (Er : fst (parse_lines (split_on "010" data) empty_stats)
               = fst (parse_lines (pre ++ post) empty_stats)).
  { by rewrite Hs, !parse_lines_app, E. }
  eexists. split; [apply parse_pillowfight_log_ok|]. rewrite Er.
  split; [|split].
  - by rewrite parse_lines_ops, omap_app.
  - intros l lo hi u c rest k b Hl HL Hb.
    apply parse_lines_has_key. right. exists l. split; [done|].
    unfold line_stats. rewrite (parse_line_bucket _ _ _ _ _ _ _ HL), Hb.
    simpl. rewrite lookup_insert_eq. by eexists.
  - pose proof (parse_lines_ok (pre ++ post) empty_stats) as Hok.
    destruct (parse_lines (pre ++ post) empty_stats) as [r o].
    simpl in *. by subst.
Qed.

Lemma parse_skips_malformed_ops_line_witness :
  exists r,
    parse_pillowfight_log (lit "OPS/SEC 7" ++ nl ++ lit "OPS/SEC abc" ++ nl
                             ++ lit "OPS/SEC 9") = Ok r /\
    opspersec r = omap ops_sample [lit "OPS/SEC 7"]
                    ++ omap ops_sample [lit "OPS/SEC 9"] /\
    (forall l lo hi u c rest k b,
       l ∈ [lit "OPS/SEC 7"] ++ [lit "OPS/SEC 9"] ->
       bucket_line l lo hi u c rest ->
       bucket_of lo hi u c rest = Some (k, b) ->
       is_Some (resptimes r !! k)) /\
    parse_lines ([lit "OPS/SEC 7"] ++ [lit "OPS/SEC 9"]) empty_stats
    = (r, Ok tt).
Proof.
  apply (parse_skips_malformed_ops_line _ [lit "OPS/SEC 7"]
           (lit "OPS/SEC abc") [lit "OPS/SEC 9"]); reflexivity.
Defined.

(** On the text of the witness the samples are 7 and 9. *)
Lemma parse_skips_malformed_ops_line_example :
  parse_pillowfight_log (lit "OPS/SEC 7" ++ nl ++ lit "OPS/SEC abc" ++ nl
                           ++ lit "OPS/SEC 9")
  = Ok {| opspersec := [7; 9]; resptimes := ∅ |} /\
  omap ops_sample [lit "OPS/SEC 7"] ++ omap ops_sample [lit "OPS/SEC 9"]
  = [7; 9].
Proof. split; reflexivity. Qed.

(** C4: a bucket line whose numbers are read stores its bounds multiplied by
    1000 when its unit is ms and as they are read when its unit is us: the
    record returned has that bucket under the upper bound so scaled (provided
    no later line stores the same key).  The bounds read are the numbers
    that the digits of the line write. *)
Theorem bucket_bounds_normalized data pre l post lo hi u c rest i1 i2 n :
  split_on "010" data = pre ++ l :: post ->
  bucket_line l lo hi u c rest ->
  py_int lo = Ok i1 -> py_int hi = Ok i2 ->
  py_int (count_token c rest) = Ok n ->
  (forall l', l' ∈ post ->
     resptimes (line_stats l') !! (i2 * scale u) = None) ->
  exists r, parse_pillowfight_log data = Ok r /\
    i1 = decimal lo /\ i2 = decimal hi /\
    (u = "m"%char ->
       resptimes r !! (i2 * 1000)
       = Some {| minindx := i1 * 1000; number := n |}) /\
    (u = "u"%char ->
       resptimes r !! i2 = Some {| minindx := i1; number := n |}).
Proof.
  intros Hs HL H1 H2 Hn Hpost.
  destruct (parse_lookup_last data pre l post (i2 * scale u)
              {| minindx := i1 * scale u; number := n |} Hs)
    as (r & Hr & Hk).
  - rewrite (line_stats_bucket _ _ _ _ _ _ _ _ _ HL H1 H2 Hn). simpl.
    apply lookup_insert_eq.
  - exact Hpost.
  - pose proof HL as (_ & _ & _ & _ & Hlo & _ & _ & Hhi & _).
    exists r. split; [exact Hr|].
    split; [by apply py_int_numeral_Ok|].
    split; [by apply py_int_numeral_Ok|].
    split; intros ->.
    + exact Hk.
    + change (scale "u") with 1 in Hk. by rewrite !Z.mul_1_r in Hk.
Qed.

Lemma bucket_line_ms_example :
  bucket_line (lit "[1 - 3]ms |# - 2") (lit "1") (lit "3") "m" "2" [].
Proof. exists (lit " "), [], (lit "#"). repeat split; first [done | by left | by right]. Qed.

Lemma bucket_bounds_normalized_witness :
  exists r,
    parse_pillowfight_log (lit "[1 - 3]ms |# - 2" ++ nl ++ lit "[4 - 7]us |## - 9")
    = Ok r /\
    1 = decimal (lit "1") /\ 3 = decimal (lit "3") /\
    ("m"%char = "m"%char ->
       resptimes r !! (3 * 1000)
       = Some {| minindx := 1 * 1000; number := 2 |}) /\
    ("m"%char = "u"%char ->
       resptimes r !! 3 = Some {| minindx := 1; number := 2 |}).
Proof.
  apply (bucket_bounds_normalized _ [] (lit "[1 - 3]ms |# - 2")
           [lit "[4 - 7]us |## - 9"] (lit "1") (lit "3") "m" "2" [] 1 3 2).
  - reflexivity.
  - exact bucket_line_ms_example.
  - reflexivity.
  - reflexivity.
  - reflexivity.
  - intros l' H. apply list_elem_of_singleton in H as ->. reflexivity.
Defined.

(** C5: when two bucket lines of a text, both with their numbers read, give
    the same scaled upper bound, the record returned has under that key the
    lower bound and the count of the later line, and its histogram is the one
    of the text without the earlier line. *)
Theorem later_bucket_line_wins data pre l1 mid l2 post
    lo1 hi1 u1 c1 rest1 a1 b1 n1 lo2 hi2 u2 c2 rest2 a2 b2 n2 :
  split_on "010" data = pre ++ l1 :: mid ++ l2 :: post ->
  bucket_line l1 lo1 hi1 u1 c1 rest1 ->
  py_int lo1 = Ok a1 -> py_int hi1 = Ok b1 ->
  py_int (count_token c1 rest1) = Ok n1 ->
  bucket_line l2 lo2 hi2 u2 c2 rest2 ->
  py_int lo2 = Ok a2 -> py_int hi2 = Ok b2 ->
  py_int (count_token c2 rest2) = Ok n2 ->
  b1 * scale u1 = b2 * scale u2 ->
  (forall l', l' ∈ post ->
     resptimes (line_stats l') !! (b2 * scale u2) = None) ->
  exists r, parse_pillowfight_log data = Ok r /\
    resptimes r !! (b1 * scale u1)
    = Some {| minindx := a2 * scale u2; number := n2 |} /\
    resptimes r
    = resptimes (fst (parse_lines (pre ++ mid ++ l2 :: post) empty_stats)).
Proof.
  intros Hs HL1 Ha1 Hb1 Hn1 HL2 Ha2 Hb2 Hn2 Hk Hpost.
  set (k := b2 * scale u2) in *.
  set (v2 := {| minindx := a2 * scale u2; number := n2 |}).
  assert (H2 : resptimes (line_stats l2) !! k = Some v2).
  { rewrite (line_stats_bucket _ _ _ _ _ _ _ _ _ HL2 Ha2 Hb2 Hn2). simpl.
    apply lookup_insert_eq. }
  assert (Hlast : forall ls st,
            resptimes (fst (parse_lines (ls ++ l2 :: post) st)) !! k = Some v2).
  { intros ls st. rewrite parse_lines_app, parse_lines_cons.
    rewrite (parse_lines_lookup_later _ _ _ Hpost). simpl.
    by apply lookup_union_Some_l. }
  assert (E1 : pre ++ l1 :: mid ++ l2 :: post = (pre ++ l1 :: mid) ++ l2 :: post)
    by (by rewrite <- app_assoc).
  assert (E2 : pre ++ mid ++ l2 :: post = (pre ++ mid) ++ l2 :: post)
    by (by rewrite <- app_assoc).
  eexists. split; [apply parse_pillowfight_log_ok|]. rewrite Hs, Hk. split.
  - rewrite E1. apply Hlast.
  - apply map_eq. intros k'. destruct (decide (k' = k)) as [->|Hne].
    + rewrite E1, E2. by rewrite !Hlast.
    + rewrite !(parse_lines_app pre), parse_lines_cons.
      apply parse_lines_lookup_congr. simpl.
      rewrite (line_stats_bucket _ _ _ _ _ _ _ _ _ HL1 Ha1 Hb1 Hn1). simpl.
      rewrite lookup_union_r; [done|]. rewrite Hk.
      by rewrite lookup_insert_ne.
Qed.

Lemma bucket_line_us_example :
  bucket_line (lit "[2 - 3000]us |## - 8") (lit "2") (lit "3000") "u" "8" [].
Proof. exists (lit " "), [], (lit "##"). repeat split; first [done | by left | by right]. Qed.

Lemma later_bucket_line_wins_witness :
  exists r,
    parse_pillowfight_log (lit "[1 - 3]ms |# - 2" ++ nl ++ lit "OPS/SEC 5" ++ nl
                             ++ lit "[2 - 3000]us |## - 8" ++ nl) = Ok r /\
    resptimes r !! (3 * scale "m")
    = Some {| minindx := 2 * scale "u"; number := 8 |} /\
    resptimes r
    = resptimes (fst (parse_lines ([] ++ [lit "OPS/SEC 5"]
                                      ++ lit "[2 - 3000]us |## - 8" :: [[]])
                                   empty_stats)).
Proof.
  apply (later_bucket_line_wins _ [] (lit "[1 - 3]ms |# - 2") [lit "OPS/SEC 5"]
           (lit "[2 - 3000]us |## - 8") [[]]
           (lit "1") (lit "3") "m" "2" [] 1 3 2
           (lit "2") (lit "3000") "u" "8" [] 2 3000 8).
  - reflexivity.
  - exact bucket_line_ms_example.
  - reflexivity.
  - reflexivity.
  - reflexivity.
  - exact bucket_line_us_example.
  - reflexivity.
  - reflexivity.
  - reflexivity.
  - reflexivity.
  - intros l' H. apply list_elem_of_singleton in H as ->. reflexivity.
Defined.

(** C3, as the code has it: every bucket of the record returned comes from a
    bucket line of the text, its key and its [minindx] being the upper and the
    lower bound written on that line, multiplied by the same factor; so
    [minindx <= key] holds of a bucket exactly when the line it comes from has
    its lower bound at most its upper bound. *)
Theorem bucket_bounds_from_line data r k b :
  parse_pillowfight_log data = Ok r ->
  resptimes r !! k = Some b ->
  exists l lo hi u c rest,
    l ∈ split_on "010" data /\ bucket_line l lo hi u c rest /\
    k = decimal hi * scale u /\ minindx b = decimal lo * scale u /\
    (minindx b <= k <-> decimal lo <= decimal hi).
Proof.
  rewrite parse_pillowfight_log_ok. intros [= <-] H.
  apply parse_lines_lookup_from in H as [H|(l & Hl & H)]; [done|].
  apply line_stats_lookup in H
    as (lo & hi & u & c & rest & n & HL & _ & -> & ->).
  exists l, lo, hi, u, c, rest. repeat split; try done; simpl.
  - destruct HL as (_ & _ & _ & _ & _ & _ & _ & _ & _ & Hu & _).
    destruct Hu as [-> | ->]; [change (scale "u") with 1
                              | change (scale "m") with 1000]; lia.
  - destruct HL as (_ & _ & _ & _ & _ & _ & _ & _ & _ & Hu & _).
    destruct Hu as [-> | ->]; [change (scale "u") with 1
                              | change (scale "m") with 1000]; lia.
Qed.

Lemma bucket_bounds_from_line_witness :
  exists l lo hi u c rest,
    l ∈ split_on "010" (lit "[5 - 3]us |# - 1") /\
    bucket_line l lo hi u c rest /\
    3 = decimal hi * scale u /\
    minindx {| minindx := 5; number := 1 |} = decimal lo * scale u /\
    (minindx {| minindx := 5; number := 1 |} <= 3 <-> decimal lo <= decimal hi).
Proof.
  apply (bucket_bounds_from_line (lit "[5 - 3]us |# - 1")
           {| opspersec := [];
              resptimes := {[ 3 := {| minindx := 5; number := 1 |} ]} |});
    reflexivity.
Defined.

(** C3, as the spec has it, fails: a line whose lower bound is above its
    upper bound is stored as it is written. *)
Lemma bucket_invariant_counterexample :
  ~ (forall r k b,
       parse_pillowfight_log (lit "[5 - 3]us |# - 1") = Ok r ->
       resptimes r !! k = Some b -> minindx b <= k).
Proof.
  intros H.
  specialize (H {| opspersec := [];
                   resptimes := {[ 3 := {| minindx := 5; number := 1 |} ]} |}
                3 {| minindx := 5; number := 1 |} eq_refl eq_refl).
  simpl in H. lia.
Qed.

(** C8, as the code has it: on the text of the scenario the sample 1500 is
    read, the bucket line is not (a [|] stands between its bar and its
    count, which the pattern does not allow), and the check of the record
    against the thresholds of the class fails on the throughput, with the
    value 1500.  Without that [|] the bucket 100 is stored. *)
Theorem scenario_1500 :
  parse_pillowfight_log
    (lit "OPS/SEC 1500" ++ nl ++ lit "[0 - 100]us |###| - 5" ++ nl)
  = Ok {| opspersec := [1500]; resptimes := ∅ |} /\
  analyze PillowFight_class
    (lit "OPS/SEC 1500" ++ nl ++ lit "[0 - 100]us |###| - 5" ++ nl)
  = Raise (Exception (WorstOpsPerSec 1500)) /\
  parse_pillowfight_log
    (lit "OPS/SEC 1500" ++ nl ++ lit "[0 - 100]us |### - 5" ++ nl)
  = Ok {| opspersec := [1500];
          resptimes := {[ 100 := {| minindx := 0; number := 5 |} ]} |}.
Proof. repeat split; vm_compute; reflexivity. Qed.

(** C8, as the spec has it, fails: the record has no bucket. *)
Lemma scenario_1500_counterexample :
  parse_pillowfight_log
    (lit "OPS/SEC 1500" ++ nl ++ lit "[0 - 100]us |###| - 5" ++ nl)
  <> Ok {| opspersec := [1500];
           resptimes := {[ 100 := {| minindx := 0; number := 5 |} ]} |}.
Proof. vm_compute. discriminate. Qed.

(** ** [min], [max] and the keys of the histogram *)

Lemma foldl_min_spec l x :
  let m := foldl Z.min x l in (m = x \/ m ∈ l) /\ m <= x /\ forall y, y ∈ l -> m <= y.
Proof.
  revert x. induction l as [|a l IH]; intros x; simpl.
  - split; [by left|]. split; [lia|]. by intros y ?%elem_of_nil.
  - destruct (IH (Z.min x a)) as (Hin & Hle & Hall). split; [|split].
    + destruct Hin as [->|Hin]; [|right; by right].
      destruct (Z.min_spec x a) as [[_ ->]|[_ ->]]; [by left | right; left].
    + lia.
    + intros y [->|Hy]%elem_of_cons; [lia | by apply Hall].
Qed.

Lemma foldl_max_spec l x :
  let m := foldl Z.max x l in (m = x \/ m ∈ l) /\ x <= m /\ forall y, y ∈ l -> y <= m.
Proof.
  revert x. induction l as [|a l IH]; intros x; simpl.
  - split; [by left|]. split; [lia|]. by intros y ?%elem_of_nil.
  - destruct (IH (Z.max x a)) as (Hin & Hle & Hall). split; [|split].
    + destruct Hin as [->|Hin]; [|right; by right].
      destruct (Z.max_spec x a) as [[_ ->]|[_ ->]]; [right; left | by left].
    + lia.
    + intros y [->|Hy]%elem_of_cons; [lia | by apply Hall].
Qed.

Lemma py_min_spec l : l <> [] -> exists m, py_min l = Ok m /\ is_min m l.
Proof.
  destruct l as [|x l]; [done|]. intros _. eexists. split; [reflexivity|].
  destruct (foldl_min_spec l x) as (Hin & Hle & Hall). split.
  - destruct Hin as [->|Hin]; [left | by right].
  - intros y [->|Hy]%elem_of_cons; auto.
Qed.

Lemma py_max_spec l :
  l <> [] ->
  exists m, py_max l = Ok m /\ m ∈ l /\ forall y, y ∈ l -> y <= m.
Proof.
  destruct l as [|x l]; [done|]. intros _. eexists. split; [reflexivity|].
  destruct (foldl_max_spec l x) as (Hin & Hle & Hall). split.
  - destruct Hin as [->|Hin]; [left | by right].
  - intros y [->|Hy]%elem_of_cons; auto.
Qed.

Lemma is_min_unique m m' l : is_min m l -> is_min m' l -> m = m'.
Proof. intros [H1 H2] [H1' H2']. apply H2 in H1'. apply H2' in H1. lia. Qed.

Lemma py_min_is_min m l : is_min m l -> py_min l = Ok m.
Proof.
  intros H. destruct (py_min_spec l) as (m' & E & H').
  - intros ->. destruct H as [H _]. by apply elem_of_nil in H.
  - by rewrite (is_min_unique _ _ _ H H').
Qed.

Lemma elem_of_keys k (d : gmap Z bucket) : k ∈ keys d <-> is_Some (d !! k).
Proof.
  unfold keys. rewrite list_elem_of_fmap. split.
  - intros ([k' b] & -> & H). apply elem_of_map_to_list in H. by exists b.
  - intros [b H]. exists (k, b). split; [done|]. by apply elem_of_map_to_list.
Qed.

Lemma py_max_keys_spec (d : gmap Z bucket) :
  d <> ∅ -> exists k, py_max (keys d) = Ok k /\ is_max_key k d.
Proof.
  intros Hne. destruct (py_max_spec (keys d)) as (k & E & Hin & Hall).
  - unfold keys. intros H. apply fmap_nil_inv in H.
    by apply map_to_list_empty_iff in H.
  - exists k. split; [done|]. split.
    + by apply elem_of_keys.
    + intros k' Hk'. apply Hall. by apply elem_of_keys.
Qed.

Lemma is_max_key_unique k k' (d : gmap Z bucket) :
  is_max_key k d -> is_max_key k' d -> k = k'.
Proof. intros [H1 H2] [H1' H2']. apply H2 in H1'. apply H2' in H1. lia. Qed.

Lemma py_max_is_max_key k (d : gmap Z bucket) :
  is_max_key k d -> py_max (keys d) = Ok k.
Proof.
  intros H. destruct (py_max_keys_spec d) as (k' & E & H').
  - intros ->. destruct H as [[b H] _]. by rewrite lookup_empty in H.
  - by rewrite (is_max_key_unique _ _ _ H H').
Qed.

Lemma Qgt_bool_iff (x y : Q) : negb (Qle_bool x y) = true <-> (y < x)%Q.
Proof.
  rewrite negb_true_iff. split.
  - intros H. apply Qnot_le_lt. intros Hle.
    apply Qle_bool_iff in Hle. congruence.
  - intros H. destruct (Qle_bool x y) eqn:E; [|done].
    apply Qle_bool_iff in E. by apply Qlt_not_le in H.
Qed.

(** ** The true division

    The float of a quotient is within half a unit of its last place of the
    quotient, so that its comparison with a small integer is the comparison
    of the quotient itself. *)

Lemma round_half_even_spec n d :
  0 < d ->
  2 * (round_half_even n d * d - n) <= d /\ 2 * (n - round_half_even n d * d) <= d.
Proof.
  intros Hd. unfold round_half_even.
  pose proof (Z.div_mod n d ltac:(lia)) as E.
  pose proof (Z.mod_pos_bound n d Hd) as Hr.
  destruct (Z.ltb_spec (2 * (n mod d)) d);
    [|destruct (Z.ltb_spec d (2 * (n mod d))); [|destruct (Z.even (n / d))]];
    nia.
Qed.

Lemma pow2_pos x : 0 < 2 ^ x \/ x < 0.
Proof. destruct (Z.le_gt_cases 0 x); [left; by apply Z.pow_pos_nonneg | by right]. Qed.

Lemma scaled_pos n d e :
  0 < n -> 0 < d -> 0 < (scaled n d e).1 /\ 0 < (scaled n d e).2.
Proof.
  intros Hn Hd. unfold scaled. destruct (Z.leb_spec 0 e); simpl.
  - pose proof (Z.pow_pos_nonneg 2 e). nia.
  - pose proof (Z.pow_pos_nonneg 2 (- e)). nia.
Qed.

Lemma scaled_rel n d e1 e2 :
  e1 <= e2 ->
  (scaled n d e1).1 * (scaled n d e2).2
  = (scaled n d e2).1 * (scaled n d e1).2 * 2 ^ (e2 - e1).
Proof.
  intros H. unfold scaled.
  destruct (Z.leb_spec 0 e1), (Z.leb_spec 0 e2); simpl; try lia.
  - replace e2 with (e1 + (e2 - e1)) at 1 by lia.
    rewrite Z.pow_add_r by lia. ring.
  - replace (e2 - e1) with (e2 + - e1) by lia.
    rewrite Z.pow_add_r by lia. ring.
  - replace (- e1) with (- e2 + (e2 - e1)) at 1 by lia.
    rewrite Z.pow_add_r by lia. ring.
Qed.

Lemma scaled_lt n d x y :
  0 <= x -> 0 <= y -> n < 2 ^ x -> 2 ^ y <= d -> 0 < n ->
  (scaled n d (x - y)).1 < (scaled n d (x - y)).2.
Proof.
  intros Hx Hy Hn Hd Hn0. unfold scaled.
  destruct (Z.leb_spec 0 (x - y)); simpl.
  - replace x with (y + (x - y)) in Hn by lia.
    rewrite Z.pow_add_r in Hn by lia.
    pose proof (Z.pow_pos_nonneg 2 (x - y)). nia.
  - replace y with (x + - (x - y)) in Hd by lia.
    rewrite Z.pow_add_r in Hd by lia.
    pose proof (Z.pow_pos_nonneg 2 (- (x - y))). nia.
Qed.

Lemma scaled_ge n d x y :
  0 <= x -> 0 <= y -> 2 ^ x <= n -> d < 2 ^ y -> 0 < d ->
  (scaled n d (x - y)).2 <= (scaled n d (x - y)).1.
Proof.
  intros Hx Hy Hn Hd Hd0. unfold scaled.
  destruct (Z.leb_spec 0 (x - y)); simpl.
  - replace x with (y + (x - y)) in Hn by lia.
    rewrite Z.pow_add_r in Hn by lia.
    pose proof (Z.pow_pos_nonneg 2 (x - y)). nia.
  - replace y with (x + - (x - y)) in Hd by lia.
    rewrite Z.pow_add_r in Hd by lia.
    pose proof (Z.pow_pos_nonneg 2 (- (x - y))). nia.
Qed.

Lemma ilog2_spec n d :
  0 < n -> 0 < d ->
  (scaled n d (ilog2 n d)).2 <= (scaled n d (ilog2 n d)).1
  /\ (scaled n d (ilog2 n d)).1 < 2 * (scaled n d (ilog2 n d)).2.
Proof.
  intros Hn Hd. unfold ilog2.
  pose proof (Z.log2_spec n Hn) as [Hn1 Hn2].
  pose proof (Z.log2_spec d Hd) as [Hd1 Hd2].
  pose proof (Z.log2_nonneg n). pose proof (Z.log2_nonneg d).
  set (L := Z.log2 n) in *. set (M := Z.log2 d) in *.
  pose proof (scaled_lt n d (Z.succ L) M ltac:(lia) ltac:(lia) Hn2 Hd1 Hn) as Hup.
  pose proof (scaled_ge n d L (Z.succ M) ltac:(lia) ltac:(lia) Hn1 Hd2 Hd) as Hlo.
  replace (Z.succ L - M) with (L - M + 1) in Hup by lia.
  replace (L - Z.succ M) with (L - M - 1) in Hlo by lia.
  pose proof (scaled_rel n d (L - M) (L - M + 1) ltac:(lia)) as R1.
  pose proof (scaled_rel n d (L - M - 1) (L - M) ltac:(lia)) as R2.
  replace (L - M + 1 - (L - M)) with 1 in R1 by lia.
  replace (L - M - (L - M - 1)) with 1 in R2 by lia.
  change (2 ^ 1) with 2 in *.
  pose proof (scaled_pos n d (L - M) Hn Hd).
  pose proof (scaled_pos n d (L - M + 1) Hn Hd).
  pose proof (scaled_pos n d (L - M - 1) Hn Hd).
  destruct (scaled n d (L - M)) as [N0 D0] eqn:E0.
  destruct (scaled n d (L - M + 1)) as [N1 D1].
  destruct (scaled n d (L - M - 1)) as [N2 D2] eqn:E2. simpl in *.
  destruct (Z.leb_spec D0 N0).
  - rewrite E0. simpl. nia.
  - rewrite E2. simpl. nia.
Qed.

(** The significand and the exponent of the float of [n / d], when the
    exponent is in the normal range. *)
Lemma float_of_ratio_normal n d :
  0 < n -> 0 < d ->
  let e := ilog2 n d - 52 in
  let m := round_half_even (scaled n d e).1 (scaled n d e).2 in
  -1074 <= e -> e <= 960 ->
  float_of_ratio n d = Ok (dyadic m e) /\
  2 ^ 52 <= m <= 2 ^ 53 /\
  2 ^ 52 * (scaled n d e).2 <= (scaled n d e).1.
Proof.
  intros Hn Hd e m He1 He2.
  pose proof (ilog2_spec n d Hn Hd) as [Ht1 Ht2].
  pose proof (scaled_rel n d e (ilog2 n d) ltac:(lia)) as R.
  replace (ilog2 n d - e) with 52 in R by lia.
  pose proof (scaled_pos n d e Hn Hd) as [HN HD].
  pose proof (scaled_pos n d (ilog2 n d) Hn Hd) as [HN' HD'].
  pose proof (round_half_even_spec (scaled n d e).1 (scaled n d e).2 HD)
    as [Hr1 Hr2].
  fold m in Hr1, Hr2.
  assert (Hlo : 2 ^ 52 * (scaled n d e).2 <= (scaled n d e).1).
  { destruct (scaled n d e) as [N D], (scaled n d (ilog2 n d)) as [N' D'].
    simpl in *. set (P := 2 ^ 52) in *. assert (0 < P) by done. nia. }
  assert (Hhi : (scaled n d e).1 < 2 ^ 53 * (scaled n d e).2).
  { destruct (scaled n d e) as [N D], (scaled n d (ilog2 n d)) as [N' D'].
    simpl in *. change (2 ^ 53) with (2 * 2 ^ 52).
    set (P := 2 ^ 52) in *. assert (0 < P) by done. nia. }
  assert (Hm : 2 ^ 52 <= m <= 2 ^ 53).
  { destruct (scaled n d e) as [N D]. simpl in *.
    set (P := 2 ^ 52) in *. change (2 ^ 53) with (2 * P) in *. nia. }
  split; [|done].
  unfold float_of_ratio. fold e. rewrite (Z.max_l e (-1074)) by lia.
  destruct (scaled n d e) as [N D] eqn:E. simpl in m. fold m.
  destruct (Z.leb_spec 0 e) as [He|He]; simpl; [|done].
  destruct (Z.leb_spec (2 ^ 1024) (m * 2 ^ e)) as [Hov|]; [|done].
  exfalso.
  assert (m * 2 ^ e <= 2 ^ 53 * 2 ^ 960).
  { apply Z.mul_le_mono_nonneg; [lia|lia|by apply Z.pow_nonneg|].
    by apply Z.pow_le_mono_r. }
  rewrite <- Z.pow_add_r in H by lia.
  assert (2 ^ (53 + 960) < 2 ^ 1024) by (by apply Z.pow_lt_mono_r).
  lia.
Qed.

Lemma ilog2_1000_range n :
  1 <= n < 2 ^ 1000 -> -10 <= ilog2 n 1000 <= 1000.
Proof.
  intros [Hn1 Hn2].
  pose proof (ilog2_spec n 1000 ltac:(lia) ltac:(lia)) as [Ht1 Ht2].
  unfold scaled in Ht1, Ht2.
  destruct (Z.leb_spec 0 (ilog2 n 1000)) as [H|H]; simpl in *.
  - split; [lia|].
    destruct (Z.le_gt_cases (ilog2 n 1000) 1000) as [?|Hgt]; [done|].
    assert (2 ^ 1000 <= 2 ^ ilog2 n 1000) by (apply Z.pow_le_mono_r; lia).
    lia.
  - split; [|lia].
    destruct (Z.le_gt_cases (-10) (ilog2 n 1000)) as [?|Hlt]; [done|].
    assert (2 ^ 11 <= 2 ^ (- ilog2 n 1000)) by (apply Z.pow_le_mono_r; lia).
    change (2 ^ 11) with 2048 in *. nia.
Qed.

Lemma dyadic_gt c m e :
  (inject_Z c < dyadic m e)%Q <->
  if 0 <=? e then c < m * 2 ^ e else c * 2 ^ (- e) < m.
Proof.
  unfold dyadic. destruct (Z.leb_spec 0 e) as [He|He].
  - by rewrite <- Zlt_Qlt.
  - unfold Qlt, inject_Z. simpl.
    rewrite Z2Pos.id by (apply Z.pow_pos_nonneg; lia). lia.
Qed.

Lemma dyadic_nonneg m e : 0 <= m -> (0 <= dyadic m e)%Q.
Proof.
  intros Hm. unfold dyadic. destruct (Z.leb_spec 0 e) as [He|He].
  - change 0%Q with (inject_Z 0). rewrite <- Zle_Qle.
    apply Z.mul_nonneg_nonneg; [done | by apply Z.pow_nonneg].
  - unfold Qle. simpl. lia.
Qed.

(** The float of [n / 1000] is above an integer [c] below [2^43] exactly
    when [n / 1000] is. *)
Lemma float_of_ratio_1000_gt n c :
  1 <= n < 2 ^ 1000 -> 0 <= c < 2 ^ 43 ->
  exists s, float_of_ratio n 1000 = Ok s /\
            (0 <= s)%Q /\ ((inject_Z c < s)%Q <-> 1000 * c < n).
Proof.
  intros Hn Hc.
  pose proof (ilog2_1000_range n Hn) as Ht.
  destruct (float_of_ratio_normal n 1000 ltac:(lia) ltac:(lia)
              ltac:(lia) ltac:(lia)) as (E & Hm & Hlo).
  pose proof (round_half_even_spec (scaled n 1000 (ilog2 n 1000 - 52)).1
                (scaled n 1000 (ilog2 n 1000 - 52)).2) as Hr.
  set (e := ilog2 n 1000 - 52) in *.
  set (m := round_half_even _ _) in *.
  eexists. split; [exact E|].
  assert (H52 : 2 ^ 52 = 2 ^ 43 * 512) by done.
  split; [apply dyadic_nonneg; pose proof (Z.pow_nonneg 2 52); lia|].
  rewrite dyadic_gt. unfold scaled in Hlo, Hr.
  destruct (Z.leb_spec 0 e) as [He|He]; simpl in Hlo, Hr.
  - pose proof (Z.pow_pos_nonneg 2 e ltac:(lia) He).
    set (P := 2 ^ e) in *. set (B := 2 ^ 43) in *.
    split; intros _; nia.
  - specialize (Hr ltac:(lia)).
    pose proof (Z.pow_pos_nonneg 2 (- e) ltac:(lia) ltac:(lia)).
    destruct (Z.le_gt_cases 10 (- e)) as [Hbig|Hsmall].
    + assert (2 ^ 10 <= 2 ^ (- e)) by (apply Z.pow_le_mono_r; lia).
      change (2 ^ 10) with 1024 in *.
      set (P := 2 ^ (- e)) in *. clearbody P.
      clear E Hlo Hm H52 Hn Hc Ht. split; intros Hlt.
      * destruct (Z.lt_ge_cases (1000 * c) n) as [?|Hge]; [done|].
        exfalso. assert (n * P <= 1000 * (c * P)) by nia. lia.
      * assert (1000 * (c * P) + P <= n * P) by nia. lia.
    + assert (2 ^ (- e) <= 2 ^ 9) by (apply Z.pow_le_mono_r; lia).
      change (2 ^ 9) with 512 in *.
      set (P := 2 ^ (- e)) in *. set (B := 2 ^ 43) in *.
      assert (0 < B) by done. clearbody P B.
      split; intros _; nia.
Qed.

Lemma truediv_1000_gt a c :
  Z.abs a < 2 ^ 1000 -> 0 <= c < 2 ^ 43 ->
  exists s, py_truediv a 1000 = Ok s /\
            ((inject_Z c < s)%Q <-> 1000 * c < a).
Proof.
  intros Ha Hc. unfold py_truediv.
  change (1000 =? 0) with false. change (Z.abs 1000) with 1000.
  change (0 <? 1000) with true. cbv iota.
  destruct (Z.eqb_spec a 0) as [->|Hne].
  - exists 0%Q. split; [done|]. change 0%Q with (inject_Z 0).
    rewrite <- Zlt_Qlt. lia.
  - destruct (float_of_ratio_1000_gt (Z.abs a) c ltac:(lia) Hc)
      as (s & -> & Hs & Hgt). simpl.
    destruct (Z.ltb_spec 0 a) as [Hpos|Hneg]; simpl.
    + exists s. split; [done|]. rewrite Hgt. lia.
    + exists (- s)%Q. split; [done|]. split; [|lia].
      intros Hlt. exfalso.
      assert (0 <= inject_Z c)%Q
        by (change 0%Q with (inject_Z 0); rewrite <- Zle_Qle; lia).
      assert (- s <= 0)%Q by (apply (Qopp_le_compat 0 s); exact Hs).
      apply (Qlt_irrefl 0). eapply Qle_lt_trans; [eassumption|].
      eapply Qlt_le_trans; eassumption.
Qed.

(** The true division by 1000 gives a float as long as the integer is below
    [2^1000] in size. *)
Lemma truediv_1000_le a c :
  Z.abs a < 2 ^ 1000 -> 0 <= c < 2 ^ 43 ->
  exists s, py_truediv a 1000 = Ok s /\
            ((s <= inject_Z c)%Q <-> a <= 1000 * c).
Proof.
  intros Ha Hc. destruct (truediv_1000_gt a c Ha Hc) as (s & E & H).
  exists s. split; [done|]. split.
  - intros Hle. destruct (Z.le_gt_cases a (1000 * c)) as [?|Hgt]; [done|].
    apply H in Hgt. by apply Qlt_not_le in Hgt.
  - intros Hle. apply Qnot_lt_le. intros Hlt. apply H in Hlt. lia.
Qed.

Lemma truediv_1000_raises a e : py_truediv a 1000 = Raise e -> e = OverflowError.
Proof.
  unfold py_truediv. change (1000 =? 0) with false. cbv iota.
  destruct (a =? 0); [done|]. unfold float_of_ratio.
  destruct (scaled _ _ _) as [N D].
  destruct (_ && _); simpl; [by intros [= <-]|].
  by destruct (Bool.eqb _ _).
Qed.

(** The outcomes of [sanity_check] on a record with samples and buckets. *)
Lemma sanity_check_cases self st m k :
  is_min m (opspersec st) -> is_max_key k (resptimes st) ->
  sanity_check self st =
  if m <? MIN_ACCEPTABLE_OPS_PER_SEC self then
    Raise (Exception (WorstOpsPerSec m))
  else match py_truediv k 1000 with
       | Raise e => Raise e
       | Ok stat2 =>
           if negb (Qle_bool stat2
                      (inject_Z (MAX_ACCEPTABLE_RESPONSE_TIME self)))
           then Raise (Exception (WorstResponseTime stat2))
           else Ok tt
       end.
Proof.
  intros Hm Hk. unfold sanity_check.
  rewrite (py_min_is_min _ _ Hm). simpl.
  destruct (m <? MIN_ACCEPTABLE_OPS_PER_SEC self); [done|].
  by rewrite (py_max_is_max_key _ _ Hk).
Qed.

(** ** Claims about [sanity_check] *)




(** A key too large for the division: the check raises [OverflowError]. *)
Lemma sanity_check_overflow_example :
  sanity_check PillowFight_class
    {| opspersec := [2000];
       resptimes := {[ 10 ^ 400 := {| minindx := 0; number := 1 |} ]} |}
  = Raise OverflowError.
Proof. vm_compute. reflexivity. Qed.



(** ** The polling loop *)

Lemma for_each_app {S A} (xs ys : list A) (body : A -> M S unit) s :
  for_each (xs ++ ys) body s =
  match for_each xs body s with
  | (s', Ok _) => for_each ys body s'
  | (s', Raise e) => (s', Raise e)
  end.
Proof.
  revert s. induction xs as [|x xs IH]; intros s; [done|].
  cbn [app for_each]. unfold bind. destruct (body x s) as [s1 [[]|e]]; [|done].
  apply IH.
Qed.

(** A pod that makes [classify] raise leaves the state as it was. *)
Lemma classify_raise pod s s' e :
  classify pod s = (s', Raise e) -> s' = s.
Proof. classify_cases; by intros [= <-]. Qed.

(** [classify] raises the errors of the look-ups only. *)
Lemma classify_raises pod s s' e :
  classify pod s = (s', Raise e) ->
  e = KeyError \/ e = TypeError \/ e = IndexError.
Proof.
  assert (G1 : forall v k x, getitem v k = Raise x -> x = KeyError \/ x = TypeError \/ x = IndexError).
  { intros v k x. destruct v; simpl; try (intros [= <-]; auto).
    destruct (assoc k d); intros [= <-]; auto. }
  assert (G2 : forall v x, getitem0 v = Raise x -> x = KeyError \/ x = TypeError \/ x = IndexError).
  { intros v x. destruct v as [| | |[|]|[|]|]; simpl; intros [= <-]; auto. }
  assert (G3 : forall k v x, contains k v = Raise x -> x = KeyError \/ x = TypeError \/ x = IndexError).
  { intros k v x. destruct v; simpl; intros [= <-]; auto. }
  classify_cases; intros [= <- <-]; eauto.
Qed.

Lemma is_PStr_true k v : is_PStr k v = true -> v = PStr k.
Proof.
  destruct v; simpl; try done. intros H. apply bool_decide_eq_true in H.
  by subst.
Qed.

Lemma update_all_completed k info0 :
  all_completed info0 -> all_completed (update k (PStr STATUS_COMPLETED) info0).
Proof.
  unfold all_completed. induction 1 as [|[k' v] info0 Hv H IH]; simpl.
  - by constructor.
  - destruct (bool_decide (k' = k)); constructor; auto.
Qed.

Lemma classify_all_completed pod s s' r :
  classify pod s = (s', r) ->
  all_completed (pods_info s) -> all_completed (pods_info s').
Proof.
  classify_cases; intros [= <- <-]; auto.
  intros H. simpl.
  match goal with H : is_PStr _ _ = true |- _ => apply is_PStr_true in H as -> end.
  by apply update_all_completed.
Qed.

Lemma for_each_classify_all_completed pods s s' r :
  for_each pods classify s = (s', r) ->
  all_completed (pods_info s) -> all_completed (pods_info s').
Proof.
  revert s. induction pods as [|pod pods IH]; intros s.
  - by intros [= <- <-].
  - cbn [for_each]. unfold bind. destruct (classify pod s) as [s1 [[]|e]] eqn:E.
    + intros H Hs. eapply IH; [exact H|]. eapply classify_all_completed; eauto.
    + intros [= <- <-] Hs. eapply classify_all_completed; eauto.
Qed.

Lemma for_each_classify_raises pods s s' e :
  for_each pods classify s = (s', Raise e) ->
  e = KeyError \/ e = TypeError \/ e = IndexError.
Proof.
  revert s. induction pods as [|pod pods IH]; intros s; [done|].
  cbn [for_each]. unfold bind. destruct (classify pod s) as [s1 [[]|e1]] eqn:E.
  - apply IH.
  - intros [= <- <-]. eapply classify_raises; eauto.
Qed.

Lemma poll_once_all_completed replicas pods info0 info1 r :
  poll_once replicas pods info0 = (info1, r) ->
  all_completed info0 -> all_completed info1.
Proof.
  unfold poll_once.
  destruct (for_each pods classify _) as [s [[]|e]] eqn:E; intros H Hi.
  - injection H as <- <-. by eapply (for_each_classify_all_completed _ _ _ _ E).
  - destruct (is_IndexError e); injection H as <- <-;
      by eapply (for_each_classify_all_completed _ _ _ _ E).
Qed.

(** One turn of the loop raises no [IndexError], and what it raises is
    a [KeyError] or a [TypeError]. *)
Lemma poll_once_raises replicas pods info0 info1 e :
  poll_once replicas pods info0 = (info1, Raise e) ->
  e = KeyError \/ e = TypeError.
Proof.
  unfold poll_once.
  destruct (for_each pods classify _) as [s [[]|e1]] eqn:E; [done|].
  apply for_each_classify_raises in E.
  destruct E as [-> | [-> | ->]]; simpl; intros [= <-]; auto.
Qed.

Lemma poll_all_completed replicas samples info0 info1 r :
  poll replicas samples info0 = (info1, r) ->
  all_completed info0 -> all_completed info1.
Proof.
  revert info0. induction samples as [|pods samples IH]; intros info0.
  - by intros [= <- <-].
  - cbn [poll]. unfold bind.
    destruct (poll_once replicas pods info0) as [i1 [[]|e]] eqn:E.
    + intros [= <- <-] Hi. by eapply poll_once_all_completed.
    + intros H Hi. eapply IH; [exact H|]. by eapply poll_once_all_completed.
    + intros [= <- <-] Hi. by eapply poll_once_all_completed.
Qed.

Lemma poll_raises replicas samples info0 info1 e :
  poll replicas samples info0 = (info1, Raise e) ->
  e = KeyError \/ e = TypeError \/ e = TimeoutExpiredError.
Proof.
  revert info0. induction samples as [|pods samples IH]; intros info0.
  - intros [= <- <-]. auto.
  - cbn [poll]. unfold bind.
    destruct (poll_once replicas pods info0) as [i1 [[]|e1]] eqn:E.
    + done.
    + apply IH.
    + intros [= <- <-]. apply poll_once_raises in E as [-> | ->]; auto.
Qed.

(** The logs of pods that completed are collected in their order, up to the
    first pod for which the host raises. *)
Lemma collect_completed h items s s' r :
  all_completed items ->
  for_each items (collect h) s = (s', r) ->
  info s' = info s /\
  exists done rest files,
    items = done ++ rest /\ Forall2 (logged h) done files /\
    written s' = written s ++ files /\
    match r with
    | Ok _ => rest = []
    | Raise e => exists item rest', rest = item :: rest' /\ refused h item e
    end.
Proof.
  intros H. revert s. induction H as [|[pod v] items Hv H IH]; intros s.
  - intros [= <- <-]. split; [done|]. exists [], [], [].
    split; [done|]. split; [constructor|]. by rewrite app_nil_r.
  - cbn [for_each]. unfold bind. simpl in Hv. subst v.
    unfold collect at 1. cbn [is_PStr]. rewrite bool_decide_eq_true_2 by done.
    unfold bind, lift, modify.
    destruct (logs_of h pod) as [data|e] eqn:El.
    + destruct (write_file h (pod ++ lit ".log") (drop_nul data))
        as [[]|e] eqn:Ew.
      * intros E. apply IH in E as (Hi & done & rest & files & -> & HF & Hw & Hr).
        split; [done|].
        exists ((pod, PStr STATUS_COMPLETED) :: done), rest,
               ((pod ++ lit ".log", drop_nul data) :: files).
        repeat split; try done.
        -- constructor; [|done]. by exists data.
        -- rewrite Hw. simpl. by rewrite <- app_assoc.
      * intros [= <- <-]. split; [done|].
        exists [], ((pod, PStr STATUS_COMPLETED) :: items), [].
        split; [done|]. split; [constructor|].
        split; [by rewrite app_nil_r|].
        eexists _, _. split; [done|]. right. by exists data.
    + intros [= <- <-]. split; [done|].
      exists [], ((pod, PStr STATUS_COMPLETED) :: items), [].
      split; [done|]. split; [constructor|].
      split; [by rewrite app_nil_r|].
      eexists _, _. split; [done|]. by left.
Qed.

(** [run_pillowfights] does not reach its own [raise]: the loop records the
    reason [Completed] only, so the [elif] that raises
    [Exception("Pillowfight failed to complete")] is not taken.  A run ends
    without an error, or with the timeout of the sampler, or with a
    [KeyError] or a [TypeError] of a look-up, or with an error that the host
    raises for a pod. *)
Lemma run_pillowfights_outcomes replicas samples h :
  let r := snd (run_pillowfights replicas samples h) in
  r = Ok tt \/ r = Raise KeyError \/ r = Raise TypeError
  \/ r = Raise TimeoutExpiredError
  \/ exists item e, refused h item e /\ r = Raise e.
Proof.
  unfold run_pillowfights.
  destruct (poll replicas samples []) as [pi [[]|e]] eqn:E.
  - destruct (for_each pi (collect h) _) as [s' r] eqn:Ec. simpl.
    apply collect_completed in Ec
      as (_ & done & rest & files & _ & _ & _ & Hr);
      [|eapply poll_all_completed; [exact E | constructor]].
    destruct r as [[]|e]; [by left|].
    destruct Hr as (item & rest' & _ & Hr). do 4 right. by exists item, e.
  - simpl. apply poll_raises in E as [-> | [-> | ->]]; auto.
Qed.

(** ** Claims about [run_pillowfights] *)

Lemma poll_once_one_failed info0 :
  info0 = [] \/ info0 = [(lit "pillowfight-rbd-simple0", PStr (lit "Completed"))] ->
  poll_once 2 one_failed info0
  = ([(lit "pillowfight-rbd-simple0", PStr (lit "Completed"))], Ok false).
Proof. intros [-> | ->]; vm_compute; reflexivity. Qed.

Lemma poll_one_failed n :
  poll 2 (replicate n one_failed)
    [(lit "pillowfight-rbd-simple0", PStr (lit "Completed"))]
  = ([(lit "pillowfight-rbd-simple0", PStr (lit "Completed"))],
     Raise TimeoutExpiredError).
Proof.
  induction n as [|n IH]; [done|].
  cbn [replicate poll]. unfold bind.
  rewrite poll_once_one_failed by auto. exact IH.
Qed.

(** C1, on the code: with two replicas of which one has terminated with the
    reason [Error], every sample leaves the loop running; the run ends with
    the timeout of the sampler, not with [Exception("Pillowfight failed to
    complete")], and the failed pod is in no entry of [self.pods_info]. *)
Theorem failed_pod_runs_into_timeout n oc_logs :
  run_pillowfights 2 (replicate (S n) one_failed) oc_logs
  = ({| info := [(lit "pillowfight-rbd-simple0", PStr (lit "Completed"))];
        written := [] |},
     Raise TimeoutExpiredError).
Proof.
  unfold run_pillowfights. cbn [replicate poll]. unfold bind.
  rewrite poll_once_one_failed by auto. by rewrite poll_one_failed.
Qed.

(** An empty list of container statuses makes the look-up of its first
    element raise [IndexError]. *)
Lemma classify_empty_statuses pf_pod pod_info status s :
  getitem pod_info (lit "status") = Ok status ->
  getitem status (lit "containerStatuses") = Ok (PList []) ->
  classify (pf_pod, pod_info) s = (s, Raise IndexError).
Proof. intros H1 H2. unfold classify, bind, lift. by rewrite H1, H2. Qed.

Lemma poll_once_index_error replicas pre pod rest info0 s :
  for_each pre classify {| counter := 0; pods_info := info0 |} = (s, Ok tt) ->
  snd (classify pod s) = Raise IndexError ->
  poll_once replicas (pre ++ pod :: rest) info0 = (pods_info s, Ok false).
Proof.
  intros Hpre Hpod. unfold poll_once. rewrite for_each_app, Hpre.
  cbn [for_each]. unfold bind.
  destruct (classify pod s) as [s1 r] eqn:E. simpl in Hpod. subst r.
  by rewrite (classify_raise _ _ _ _ E).
Qed.

(** C9: when the query of one pod raises [IndexError], the turn of the loop
    ends there: the pods after it in the sample are not classified, whatever
    they report, the test of [counter] is not made, and the loop goes on with
    the next sample and the entries recorded before that pod. *)
Theorem index_error_skips_rest replicas pre pod rest info0 s :
  for_each pre classify {| counter := 0; pods_info := info0 |} = (s, Ok tt) ->
  snd (classify pod s) = Raise IndexError ->
  poll_once replicas (pre ++ pod :: rest) info0 = (pods_info s, Ok false) /\
  forall samples,
    poll replicas ((pre ++ pod :: rest) :: samples) info0
    = poll replicas samples (pods_info s).
Proof.
  intros Hpre Hpod.
  pose proof (poll_once_index_error replicas pre pod rest info0 s Hpre Hpod) as E.
  split; [exact E|]. intros samples. cbn [poll]. unfold bind. by rewrite E.
Qed.

Lemma index_error_skips_rest_witness :
  poll_once 2
    ([(lit "pf0", terminated_pod (lit "Completed"))]
       ++ (lit "pf1", unstarted_pod)
       :: [(lit "pf2", terminated_pod (lit "Completed"))]) []
  = (pods_info {| counter := 1;
                  pods_info := [(lit "pf0", PStr (lit "Completed"))] |},
     Ok false) /\
  forall samples,
    poll 2
      (([(lit "pf0", terminated_pod (lit "Completed"))]
          ++ (lit "pf1", unstarted_pod)
          :: [(lit "pf2", terminated_pod (lit "Completed"))]) :: samples) []
    = poll 2 samples
        (pods_info {| counter := 1;
                      pods_info := [(lit "pf0", PStr (lit "Completed"))] |}).
Proof.
  apply (index_error_skips_rest 2
           [(lit "pf0", terminated_pod (lit "Completed"))]
           (lit "pf1", unstarted_pod)
           [(lit "pf2", terminated_pod (lit "Completed"))] []
           {| counter := 1;
              pods_info := [(lit "pf0", PStr (lit "Completed"))] |});
    reflexivity.
Defined.

(** C6, as the code has it: a list of container statuses that is empty is
    taken as not yet terminal: the turn of the loop ends without an error,
    the loop goes on with the next sample, and no [IndexError] leaves it. *)
Theorem empty_statuses_tolerated
    replicas pre pf_pod pod_info status rest samples info0 s :
  for_each pre classify {| counter := 0; pods_info := info0 |} = (s, Ok tt) ->
  getitem pod_info (lit "status") = Ok status ->
  getitem status (lit "containerStatuses") = Ok (PList []) ->
  poll replicas ((pre ++ (pf_pod, pod_info) :: rest) :: samples) info0
  = poll replicas samples (pods_info s) /\
  snd (poll replicas ((pre ++ (pf_pod, pod_info) :: rest) :: samples) info0)
  <> Raise IndexError.
Proof.
  intros Hpre H1 H2. split.
  - cbn [poll]. unfold bind.
    rewrite (poll_once_index_error replicas pre (pf_pod, pod_info) rest info0 s);
      [done | done |].
    by rewrite (classify_empty_statuses _ _ _ _ H1 H2).
  - destruct (poll _ _ _) as [i r] eqn:E. simpl. intros ->.
    apply poll_raises in E as [E | [E | E]]; discriminate.
Qed.

Lemma empty_statuses_tolerated_witness :
  poll 1 (([] ++ (lit "pf0", unstarted_pod) :: [])
            :: [[(lit "pf0", terminated_pod (lit "Completed"))]]) []
  = poll 1 [[(lit "pf0", terminated_pod (lit "Completed"))]]
      (pods_info {| counter := 0; pods_info := [] |}) /\
  snd (poll 1 (([] ++ (lit "pf0", unstarted_pod) :: [])
                 :: [[(lit "pf0", terminated_pod (lit "Completed"))]]) [])
  <> Raise IndexError.
Proof.
  apply (empty_statuses_tolerated 1 [] (lit "pf0") unstarted_pod
           (PDict [(lit "containerStatuses", PList [])]) []
           [[(lit "pf0", terminated_pod (lit "Completed"))]] []
           {| counter := 0; pods_info := [] |});
    reflexivity.
Defined.

(** C6, as the spec has it, fails: a status without the list of container
    statuses, or an answer without a status, raises a [KeyError] that leaves
    the loop. *)
Lemma missing_field_counterexample :
  snd (poll 1 [[(lit "pf0", pending_pod)];
               [(lit "pf0", terminated_pod (lit "Completed"))]] [])
  = Raise KeyError /\
  snd (poll 1 [[(lit "pf0", PDict [])];
               [(lit "pf0", terminated_pod (lit "Completed"))]] [])
  = Raise KeyError.
Proof. split; vm_compute; reflexivity. Qed.

(** * Further properties of the code *)

(** ** More on [parse_pillowfight_log] *)

(** X1: the samples of the record are the integers of the OPS/SEC lines that
    read as integers, one for each such line, in the order of the lines. *)
Theorem parse_opspersec data :
  exists r, parse_pillowfight_log data = Ok r /\
            opspersec r = omap ops_sample (split_on "010" data).
Proof.
  eexists. split; [apply parse_pillowfight_log_ok|].
  by rewrite parse_lines_ops.
Qed.

(** X2: the histogram has a bucket under the key [k] exactly when some line
    of the text is a bucket line whose two bounds and count are read as
    integers and whose upper bound, scaled by its unit, is [k]. *)
Theorem parse_bucket_keys data k :
  exists r, parse_pillowfight_log data = Ok r /\
    (is_Some (resptimes r !! k) <->
     exists l lo hi u c rest i1 i2 n,
       l ∈ split_on "010" data /\ bucket_line l lo hi u c rest /\
       py_int lo = Ok i1 /\ py_int hi = Ok i2 /\
       py_int (count_token c rest) = Ok n /\ k = i2 * scale u).
Proof.
  eexists. split; [apply parse_pillowfight_log_ok|].
  rewrite parse_lines_has_key. split.
  - intros [[b H]|(l & Hl & [b H])]; [done|].
    apply line_stats_lookup_read in H
      as (lo & hi & u & c & rest & n & HL & H1 & H2 & Hn & -> & _).
    by exists l, lo, hi, u, c, rest, (decimal lo), (decimal hi), n.
  - intros (l & lo & hi & u & c & rest & i1 & i2 & n
            & Hl & HL & H1 & H2 & Hn & ->).
    right. exists l. split; [done|].
    rewrite (line_stats_bucket _ _ _ _ _ _ _ _ _ HL H1 H2 Hn). simpl.
    rewrite lookup_insert_eq. by eexists.
Qed.

Lemma decimal_acc_nonneg d acc :
  forallb isdigit d = true -> 0 <= acc ->
  0 <= fold_left (fun a c => 10 * a + digit_val c) d acc.
Proof.
  revert acc. induction d as [|c d IH]; simpl; intros acc H Hacc; [done|].
  apply andb_true_iff in H as [Hc Hd]. apply IH; [done|].
  pose proof (digit_val_range _ Hc). lia.
Qed.

Lemma decimal_nonneg d : forallb isdigit d = true -> 0 <= decimal d.
Proof. intros H. by apply decimal_acc_nonneg. Qed.

Lemma int_digits_nonneg s :
  forall acc n, 0 <= acc -> int_digits acc s = Some n -> 0 <= n.
Proof.
  assert (G : forall k s acc n,
            (length s <= k)%nat -> 0 <= acc ->
            int_digits acc s = Some n -> 0 <= n).
  { induction k as [|k IH]; intros s0 acc n Hlen Hacc.
    - destruct s0; [|simpl in Hlen; lia]. by intros [= <-].
    - destruct s0 as [|c s0]; simpl in *; [by intros [= <-]|].
      destruct (isdigit c) eqn:Hc.
      + apply IH; [lia|]. pose proof (digit_val_range _ Hc). lia.
      + destruct (ascii_eqb c "_"); [|done].
        destruct s0 as [|d s0]; [done|]. destruct (isdigit d) eqn:Hd; [|done].
        apply IH; [simpl in Hlen; lia|].
        pose proof (digit_val_range _ Hd). lia. }
  intros acc n. by apply (G (length s)).
Qed.

Lemma lstrip_snoc x c :
  isspace c = false -> exists y, lstrip (x ++ [c]) = y ++ [c].
Proof.
  intros Hc. induction x as [|a x IH]; simpl.
  - rewrite Hc. by exists [].
  - destruct (isspace a); [exact IH|]. by exists (a :: x).
Qed.

Lemma strip_head c t :
  isspace c = false -> exists t', strip (c :: t) = c :: t'.
Proof.
  intros Hc. unfold strip. simpl. rewrite Hc. simpl.
  destruct (lstrip_snoc (rev t) c Hc) as [y ->].
  rewrite rev_app_distr. simpl. eauto.
Qed.

(** An integer written without a sign is not negative. *)
Lemma py_int_unsigned_nonneg c t n :
  isdigit c = true -> py_int (c :: t) = Ok n -> 0 <= n.
Proof.
  intros Hc. unfold py_int.
  destruct (strip_head c t (isdigit_not_space _ Hc)) as [t' ->].
  destruct (isdigit_not_sign _ Hc) as [-> ->]. simpl. rewrite Hc.
  destruct (int_digits (digit_val c) t') as [z|] eqn:E; [|done].
  destruct (_ <=? _)%nat; [|done].
  intros [= <-]. eapply int_digits_nonneg; [|exact E].
  pose proof (digit_val_range _ Hc). lia.
Qed.

Lemma count_token_head c rest :
  isdigit c = true -> exists t, count_token c rest = c :: t.
Proof.
  intros Hc. unfold count_token. rewrite split_ws_cons.
  rewrite (isdigit_not_space _ Hc).
  destruct (map scrub rest) as [|d s]; [by exists []|].
  destruct (isspace d); [by exists []|].
  destruct (split_ws (d :: s)); simpl; eauto.
Qed.

(** X3: no bucket of the record has a negative key, a negative lower bound
    or a negative count. *)
Theorem buckets_nonnegative data r k b :
  parse_pillowfight_log data = Ok r ->
  resptimes r !! k = Some b ->
  0 <= k /\ 0 <= minindx b /\ 0 <= number b.
Proof.
  rewrite parse_pillowfight_log_ok. intros [= <-] H.
  apply parse_lines_lookup_from in H as [H|(l & Hl & H)]; [done|].
  apply line_stats_lookup in H
    as (lo & hi & u & c & rest & n & HL & Hn & -> & ->).
  destruct HL as (_ & _ & _ & _ & [_ Hlo] & _ & _ & [_ Hhi] & _ & Hu & _ & Hc).
  apply decimal_nonneg in Hlo, Hhi.
  assert (0 < scale u) by (destruct Hu as [-> | ->]; reflexivity).
  destruct (count_token_head c rest Hc) as [t Ht]. rewrite Ht in Hn.
  apply (py_int_unsigned_nonneg _ _ _ Hc) in Hn. simpl. lia.
Qed.

Lemma buckets_nonnegative_witness :
  0 <= 3000 /\ 0 <= minindx {| minindx := 1000; number := 2 |}
  /\ 0 <= number {| minindx := 1000; number := 2 |}.
Proof.
  apply (buckets_nonnegative (lit "[1 - 3]ms |# - 2")
           {| opspersec := [];
              resptimes := {[ 3000 := {| minindx := 1000; number := 2 |} ]} |});
    reflexivity.
Defined.

Lemma split_on_app sep a b :
  split_on sep (a ++ sep :: b) = split_on sep a ++ split_on sep b.
Proof.
  induction a as [|c a IH]; simpl.
  - by rewrite ascii_eqb_refl.
  - destruct (ascii_eqb c sep); [by rewrite IH|].
    rewrite IH. destruct (split_on sep a) eqn:E; [|done].
    by apply split_on_nonempty in E.
Qed.

(** X4: the record of two texts joined by a newline has the samples of the
    first followed by the samples of the second, and the buckets of both,
    those of the second taking the place of those of the first under the
    same key. *)
Theorem parse_concat a b :
  exists ra rb r,
    parse_pillowfight_log a = Ok ra /\ parse_pillowfight_log b = Ok rb /\
    parse_pillowfight_log (a ++ nl ++ b) = Ok r /\
    opspersec r = opspersec ra ++ opspersec rb /\
    resptimes r = resptimes rb ∪ resptimes ra.
Proof.
  eexists _, _, _. repeat split; try apply parse_pillowfight_log_ok.
  - unfold nl. cbn [app]. rewrite split_on_app, parse_lines_app.
    by rewrite parse_lines_extend.
  - unfold nl. cbn [app]. rewrite split_on_app, parse_lines_app.
    by rewrite parse_lines_extend.
Qed.

Lemma parse_lines_filter ls st :
  parse_lines ls st = parse_lines (filter relevant ls) st.
Proof.
  revert st. induction ls as [|l ls IH]; intros st; [done|].
  rewrite filter_cons. destruct (decide (relevant l)) as [Hr|Hr].
  - rewrite !parse_lines_cons. apply IH.
  - rewrite parse_lines_cons, <- IH. f_equal.
    unfold relevant in Hr. unfold line_stats.
    rewrite parse_line_other; [apply extend_empty| |].
    + destruct (startswith _ l); [|done]. exfalso. auto.
    + destruct (re_match _ l); [|done]. exfalso. auto.
Qed.

(** X5: the record depends on the OPS/SEC lines and the bucket lines only:
    taking every other line out of the text leaves it as it is. *)
Theorem parse_ignores_other_lines data :
  parse_pillowfight_log data
  = Ok (fst (parse_lines (filter relevant (split_on "010" data)) empty_stats)).
Proof. by rewrite parse_pillowfight_log_ok, parse_lines_filter. Qed.

Lemma split_on_snoc sep l x :
  ascii_eqb x sep = false ->
  exists fs f, split_on sep l = fs ++ [f] /\
               split_on sep (l ++ [x]) = fs ++ [f ++ [x]].
Proof.
  intros Hx. induction l as [|c l (fs & f & E1 & E2)]; simpl.
  - rewrite Hx. by exists [], [].
  - rewrite E1, E2. destruct (ascii_eqb c sep).
    + by exists ([] :: fs), f.
    + destruct fs as [|g fs]; simpl.
      * by exists [], (c :: f).
      * by exists ((c :: g) :: fs), f.
Qed.

Lemma last_field_snoc l x :
  ascii_eqb x " " = false -> last_field (l ++ [x]) = last_field l ++ [x].
Proof.
  intros Hx. unfold last_field.
  destruct (split_on_snoc " " l x Hx) as (fs & f & -> & ->).
  by rewrite !last_snoc.
Qed.

Lemma ops_sample_trailing_space l : ops_sample (l ++ lit " ") = None.
Proof.
  unfold ops_sample. destruct (startswith _ _); [|done].
  unfold last_field. change (lit " ") with [" "%char].
  rewrite split_on_app. cbn [split_on]. by rewrite last_snoc.
Qed.

(** X7: a line that ends with a space adds no sample, whatever number it
    carries after the OPS/SEC marker: the field after its last space is
    empty. *)
Theorem trailing_space_drops_sample l st :
  opspersec (fst (parse_line (l ++ lit " ") st)) = opspersec st.
Proof.
  rewrite parse_line_extend. simpl.
  by rewrite line_stats_ops, ops_sample_trailing_space, app_nil_r.
Qed.

Lemma startswith_snoc p l x :
  Forall (fun a => ascii_eqb a x = false) p ->
  startswith p (l ++ [x]) = startswith p l.
Proof.
  intros Hp. revert l. induction Hp as [|a p Ha Hp IH]; intros l; [done|].
  destruct l as [|b l]; simpl.
  - by rewrite Ha.
  - by rewrite IH.
Qed.

Lemma marker_snoc l w :
  isspace w = true ->
  startswith (lit "OPS/SEC") (l ++ [w]) = startswith (lit "OPS/SEC") l.
Proof.
  intros Hw. apply startswith_snoc.
  repeat constructor; (destruct (ascii_eqb _ w) eqn:E; [|done]);
    apply ascii_eqb_eq in E; subst w; discriminate.
Qed.

Lemma lstrip_blank f : blank f -> lstrip f = [].
Proof.
  unfold blank. induction f as [|c f IH]; simpl; [done|].
  intros H. apply andb_true_iff in H as [-> H]. auto.
Qed.

Lemma lstrip_snoc_space f w :
  isspace w = true ->
  lstrip (f ++ [w]) = if forallb isspace f then [] else lstrip f ++ [w].
Proof.
  intros Hw. induction f as [|c f IH]; simpl.
  - by rewrite Hw.
  - destruct (isspace c); [exact IH | done].
Qed.

Lemma strip_snoc_space f w : isspace w = true -> strip (f ++ [w]) = strip f.
Proof.
  intros Hw. unfold strip. rewrite (lstrip_snoc_space _ _ Hw).
  destruct (forallb isspace f) eqn:E.
  - by rewrite (lstrip_blank f E).
  - rewrite rev_app_distr. simpl. by rewrite Hw.
Qed.

Lemma split_ws_snoc_space s w :
  isspace w = true -> split_ws (s ++ [w]) = split_ws s.
Proof.
  intros Hw. induction s as [|c s IH].
  - simpl. by rewrite Hw.
  - cbn [app]. rewrite !split_ws_cons, IH.
    destruct (isspace c); [done|].
    destruct s as [|d s]; cbn [app]; [by rewrite Hw | done].
Qed.

Lemma count_token_snoc_space c rest w :
  isspace w = true -> count_token c (rest ++ [w]) = count_token c rest.
Proof.
  intros Hw. unfold count_token. rewrite map_app. cbn [map].
  assert (Hs : scrub w = w) by (revert Hw; ascii_cases w).
  rewrite Hs, app_comm_cons. by rewrite split_ws_snoc_space.
Qed.

Lemma bucket_line_snoc l lo hi u c rest w :
  bucket_line l lo hi u c rest -> bucket_line (l ++ [w]) lo hi u c (rest ++ [w]).
Proof.
  intros (sp1 & sp2 & bar & -> & H). exists sp1, sp2, bar.
  split; [by rewrite <- app_assoc | exact H].
Qed.

Lemma bucket_line_unsnoc l lo hi u c rest w :
  isspace w = true ->
  bucket_line (l ++ [w]) lo hi u c rest ->
  exists rest', rest = rest' ++ [w] /\ bucket_line l lo hi u c rest'.
Proof.
  intros Hw (sp1 & sp2 & bar & E & H).
  destruct rest as [|x rest' _] using rev_ind.
  - rewrite app_nil_r in E. unfold bucket_text in E.
    rewrite !app_assoc in E. apply app_inj_tail in E as [_ ->].
    destruct H as (_ & _ & _ & _ & _ & _ & _ & Hc).
    apply isdigit_not_space in Hc. congruence.
  - rewrite app_assoc in E. apply app_inj_tail in E as [-> ->].
    exists rest'. split; [done|]. by exists sp1, sp2, bar.
Qed.

(** A white space other than the space, at the end of a line, changes
    nothing of what the line gives. *)
Lemma parse_line_snoc_space l w st :
  isspace w = true -> w <> " "%char ->
  parse_line (l ++ [w]) st = parse_line l st.
Proof.
  intros Hw Hne.
  assert (Hsp : ascii_eqb w " " = false).
  { destruct (ascii_eqb w " ") eqn:E; [|done]. by apply ascii_eqb_eq in E. }
  destruct (re_match hist_pattern l) eqn:Hre.
  - apply hist_pattern_inv in Hre as (lo & hi & u & c & rest & HL).
    rewrite (parse_line_bucket _ _ _ _ _ _ _ (bucket_line_snoc _ _ _ _ _ _ w HL)).
    rewrite (parse_line_bucket _ _ _ _ _ _ _ HL).
    unfold bucket_of. by rewrite count_token_snoc_space.
  - assert (Hre' : re_match hist_pattern (l ++ [w]) = false).
    { destruct (re_match hist_pattern (l ++ [w])) eqn:E; [|done].
      apply hist_pattern_inv in E as (lo & hi & u & c & rest & HL).
      apply (bucket_line_unsnoc _ _ _ _ _ _ _ Hw) in HL as (rest' & _ & HL).
      apply bucket_line_matches in HL. congruence. }
    destruct (startswith (lit "OPS/SEC") l) eqn:Hops.
    + rewrite !parse_line_ops by (by rewrite ?marker_snoc).
      by rewrite last_field_snoc, strip_snoc_space.
    + rewrite !parse_line_other; try done. by rewrite marker_snoc.
Qed.

(** X6: a text whose lines end with a white space other than the space (a
    carriage return before the newline, a tab) gives the record of the text
    without those characters. *)
Theorem trailing_whitespace_ignored data data' :
  Forall2 (fun l' l => l' = l \/
             exists w, isspace w = true /\ w <> " "%char /\ l' = l ++ [w])
          (split_on "010" data') (split_on "010" data) ->
  parse_pillowfight_log data' = parse_pillowfight_log data.
Proof.
  intros H. rewrite !parse_pillowfight_log_ok. f_equal.
  generalize empty_stats as st.
  induction H as [|l' l ls' ls Hl _ IH]; intros st; [done|].
  rewrite !parse_lines_cons.
  replace (line_stats l') with (line_stats l); [apply IH|].
  destruct Hl as [->|(w & Hw & Hne & ->)]; [done|].
  unfold line_stats. by rewrite parse_line_snoc_space.
Qed.

Lemma trailing_whitespace_ignored_witness :
  parse_pillowfight_log
    (lit "OPS/SEC 5" ++ ["013"%char] ++ nl ++ lit "[1 - 3]ms |# - 2"
       ++ ["013"%char] ++ nl)
  = parse_pillowfight_log
      (lit "OPS/SEC 5" ++ nl ++ lit "[1 - 3]ms |# - 2" ++ nl).
Proof.
  apply trailing_whitespace_ignored.
  change (Forall2
            (fun l' l => l' = l \/
               exists w, isspace w = true /\ w <> " "%char /\ l' = l ++ [w])
            [lit "OPS/SEC 5" ++ ["013"%char];
             lit "[1 - 3]ms |# - 2" ++ ["013"%char]; []]
            [lit "OPS/SEC 5"; lit "[1 - 3]ms |# - 2"; []]).
  constructor 2; [right; by exists "013"%char|].
  constructor 2; [right; by exists "013"%char|].
  constructor 2; [by left|]. constructor 1.
Defined.

(** ** More on [sanity_check] and [analyze_all] *)


(** X9: with a ceiling from 0 to [2^43] and keys below [2^1000] in size, the
    check passes exactly when the record has a sample and a bucket, every
    sample is at or above the floor, and every key of the histogram is at
    most 1000 times the ceiling. *)
Theorem sanity_check_passes self st :
  0 <= MAX_ACCEPTABLE_RESPONSE_TIME self < 2 ^ 43 ->
  (forall k, is_Some (resptimes st !! k) -> Z.abs k < 2 ^ 1000) ->
  sanity_check self st = Ok tt <->
  opspersec st <> [] /\ resptimes st <> ∅ /\
  (forall x, x ∈ opspersec st -> MIN_ACCEPTABLE_OPS_PER_SEC self <= x) /\
  (forall k, is_Some (resptimes st !! k) ->
             k <= 1000 * MAX_ACCEPTABLE_RESPONSE_TIME self).
Proof.
  intros Hc Hsize.
  destruct (decide (opspersec st = [])) as [E|Hops].
  { unfold sanity_check. rewrite E. simpl. split; [done | by intros [? _]]. }
  destruct (py_min_spec _ Hops) as (m & Em & Hm).
  destruct (decide (resptimes st = ∅)) as [E|Hh].
  { unfold sanity_check. rewrite Em, E. simpl.
    destruct (m <? _); [|unfold keys; rewrite map_to_list_empty; simpl];
      (split; [done | by intros (_ & ? & _)]). }
  destruct (py_max_keys_spec _ Hh) as (k & Ek & Hk).
  rewrite (sanity_check_cases self st m k Hm Hk).
  destruct Hm as [Hm1 Hm2]. destruct Hk as [Hk1 Hk2].
  destruct (truediv_1000_le k (MAX_ACCEPTABLE_RESPONSE_TIME self)
              (Hsize k Hk1) Hc) as (s & -> & Hle).
  destruct (Z.ltb_spec m (MIN_ACCEPTABLE_OPS_PER_SEC self)) as [Hlt|Hge].
  - split; [done|]. intros (_ & _ & H & _). apply H in Hm1. lia.
  - destruct (negb (Qle_bool _ _)) eqn:Hq.
    + apply Qgt_bool_iff in Hq. split; [done|]. intros (_ & _ & _ & H).
      apply H, Hle in Hk1. by apply Qlt_not_le in Hq.
    + apply negb_false_iff, Qle_bool_iff, Hle in Hq.
      split; [|done]. intros _. repeat split; try done.
      * intros x Hx. apply Hm2 in Hx. lia.
      * intros k' Hk'. apply Hk2 in Hk'. lia.
Qed.

Lemma sanity_check_passes_witness :
  sanity_check PillowFight_class
    {| opspersec := [2500];
       resptimes := {[ 100 := {| minindx := 0; number := 5 |} ]} |} = Ok tt <->
  opspersec {| opspersec := [2500];
               resptimes := {[ 100 := {| minindx := 0; number := 5 |} ]} |}
  <> [] /\
  resptimes {| opspersec := [2500];
               resptimes := {[ 100 := {| minindx := 0; number := 5 |} ]} |}
  <> ∅ /\
  (forall x,
     x ∈ opspersec {| opspersec := [2500];
                      resptimes := {[ 100 := {| minindx := 0; number := 5 |} ]} |}
     -> MIN_ACCEPTABLE_OPS_PER_SEC PillowFight_class <= x) /\
  (forall k,
     is_Some (resptimes
                {| opspersec := [2500];
                   resptimes := {[ 100 := {| minindx := 0; number := 5 |} ]} |}
              !! k) ->
     k <= 1000 * MAX_ACCEPTABLE_RESPONSE_TIME PillowFight_class).
Proof.
  apply (sanity_check_passes PillowFight_class
           {| opspersec := [2500];
              resptimes := {[ 100 := {| minindx := 0; number := 5 |} ]} |}).
  - split; [discriminate | reflexivity].
  - intros k [b H]. simpl in H.
    apply lookup_singleton_Some in H as [<- _]. reflexivity.
Defined.

Lemma analyze_all_cons self path data files :
  analyze_all self ((path, data) :: files)
  = match analyze self data with
    | Ok _ => analyze_all self files
    | Raise e => Raise e
    end.
Proof.
  cbn [analyze_all]. unfold analyze, rbind.
  destruct (parse_pillowfight_log data); [|done].
  by destruct (sanity_check self a) as [[]|].
Qed.

(** X10: [analyze_all] stops at the first file that fails, with the error of
    that file; the files after it play no part. *)
Theorem analyze_all_first_failure self pre path data post e :
  (forall p d, (p, d) ∈ pre -> analyze self d = Ok tt) ->
  analyze self data = Raise e ->
  analyze_all self (pre ++ (path, data) :: post) = Raise e.
Proof.
  intros Hpre He. induction pre as [|[p d] pre IH].
  - cbn [app]. by rewrite analyze_all_cons, He.
  - cbn [app]. rewrite analyze_all_cons, (Hpre p d) by left.
    apply IH. intros p' d' H. apply (Hpre p' d'). by right.
Qed.

Lemma analyze_all_first_failure_witness :
  analyze_all PillowFight_class
    ([(lit "a.log", lit "OPS/SEC 2500" ++ nl ++ lit "[0 - 100]us |# - 5")]
       ++ (lit "b.log", lit "OPS/SEC 1500")
       :: [(lit "c.log", lit "OPS/SEC 100")])
  = Raise (Exception (WorstOpsPerSec 1500)).
Proof.
  apply analyze_all_first_failure; [|reflexivity].
  intros p d H. apply list_elem_of_singleton in H. injection H as -> ->.
  reflexivity.
Defined.

(** X11: [analyze_all] ends without an error exactly when every file passes
    the check. *)
Theorem analyze_all_ok self files :
  analyze_all self files = Ok tt <->
  forall p d, (p, d) ∈ files -> analyze self d = Ok tt.
Proof.
  induction files as [|[p d] files IH].
  - split; [|done]. by intros _ p d ?%elem_of_nil.
  - rewrite analyze_all_cons. split.
    + destruct (analyze self d) as [[]|e] eqn:E; [|done].
      intros H p' d' [[= -> ->]|Hin]%elem_of_cons; [done|].
      by apply (proj1 IH H p' d').
    + intros H. rewrite (H p d) by left. apply (proj2 IH).
      intros p' d' Hin. apply (H p' d'). by right.
Qed.

(** X12: a text with no OPS/SEC line that reads as an integer (the empty
    text among them) makes the analysis raise [ValueError], whatever the
    thresholds are. *)
Theorem analyze_no_sample self data :
  omap ops_sample (split_on "010" data) = [] ->
  analyze self data = Raise ValueError.
Proof.
  intros H. unfold analyze. destruct (parse_samples data) as (r & -> & Hr).
  simpl. unfold sanity_check. by rewrite Hr, H.
Qed.

Lemma analyze_no_sample_witness :
  analyze PillowFight_class (lit "[0 - 100]us |# - 5" ++ nl ++ lit "OPS/SEC abc")
  = Raise ValueError.
Proof. apply analyze_no_sample. reflexivity. Defined.

(** X13: the analysis of a text ends without an error, with [ValueError],
    with [OverflowError], or with one of the two errors of the thresholds; no
    error of a look-up leaves it. *)
Theorem analyze_outcomes self data :
  analyze self data = Ok tt \/ analyze self data = Raise ValueError \/
  analyze self data = Raise OverflowError \/
  (exists stat1, analyze self data = Raise (Exception (WorstOpsPerSec stat1))) \/
  (exists stat2, analyze self data = Raise (Exception (WorstResponseTime stat2))).
Proof.
  unfold analyze. rewrite parse_pillowfight_log_ok. simpl.
  set (r := fst _). unfold sanity_check.
  destruct (py_min (opspersec r)) as [m|e] eqn:Em; simpl.
  - destruct (m <? _); [right; right; right; left; eauto|].
    destruct (py_max (keys (resptimes r))) as [k|e] eqn:Ek; simpl.
    + destruct (py_truediv k 1000) as [s|e] eqn:Ed; simpl.
      * destruct (negb _); [right; right; right; right; eauto | by left].
      * right. right. left. by rewrite (truediv_1000_raises _ _ Ed).
    + right. left. destruct (keys (resptimes r)); simpl in Ek; by simplify_eq.
  - right. left. destruct (opspersec r); simpl in Em; by simplify_eq.
Qed.

(** ** More on [run_pillowfights] *)

Lemma assoc_head {A} k (v : A) d : assoc k ((k, v) :: d) = Some v.
Proof. simpl. by rewrite bool_decide_eq_true_2. Qed.

Lemma getitem_head k v d : getitem (PDict ((k, v) :: d)) k = Ok v.
Proof. unfold getitem. by rewrite assoc_head. Qed.

(** What [classify] does with a pod whose answer reports the state of its
    container. *)
Lemma classify_answer n st s :
  classify (n, answer st) s =
  (match st with
   | Terminated reason =>
       if bool_decide (reason = STATUS_COMPLETED)
       then record_completed n (PStr reason) s else s
   | _ => s
   end, Ok tt).
Proof.
  unfold classify, answer, bind, lift.
  rewrite !getitem_head. cbn [getitem0 index lookup list_lookup].
  rewrite getitem_head. destruct st as [reason| |]; try reflexivity.
  unfold state_of.
  replace (contains (lit "terminated") _) with (@Ok bool true) by reflexivity.
  rewrite !getitem_head. cbn [is_PStr].
  by destruct (bool_decide (reason = STATUS_COMPLETED)).
Qed.

Lemma for_each_answers sample s :
  for_each (answers sample) classify s =
  ({| counter := counter s + Z.of_nat (length (completed_names sample));
      pods_info := record_all (completed_names sample) (pods_info s) |},
   Ok tt).
Proof.
  revert s. induction sample as [|[n st] sample IH]; intros s.
  - simpl. rewrite Z.add_0_r. by destruct s.
  - cbn [answers map for_each]. unfold bind. simpl fst. simpl snd.
    rewrite classify_answer. fold (answers sample). rewrite IH.
    unfold completed_names. cbn [omap list_omap]. simpl.
    destruct st as [reason| |]; try done.
    destruct (bool_decide_reflect (reason = STATUS_COMPLETED)) as [->|_]; [|done].
    cbn [length]. unfold record_all. simpl. do 2 f_equal. lia.
Qed.

Lemma poll_once_completed replicas sample info0 :
  poll_once replicas (answers sample) info0 =
  (record_all (completed_names sample) info0,
   Ok (Z.of_nat (length (completed_names sample)) =? replicas)).
Proof. unfold poll_once. by rewrite for_each_answers. Qed.

(** X14: on a sample whose pods all report the state of their container, one
    turn of the loop records the pods that have terminated with the reason
    [Completed], and stops the loop exactly when their number is
    [replicas]: more completed pods than [replicas] do not stop it. *)
Theorem poll_once_answers replicas sample info0 :
  poll_once replicas (answers sample) info0 =
  (record_all (completed_names sample) info0,
   Ok (Z.of_nat (length (completed_names sample)) =? replicas)).
Proof. unfold poll_once. by rewrite for_each_answers. Qed.

(** X15: on samples whose pods all report the state of their container
    (samples built with [answers]), when no sample has exactly [replicas]
    completed pods, the loop runs to the timeout of the sampler, having
    recorded the completed pods of every sample. *)
Theorem poll_answers_timeout replicas samples info0 :
  (forall sample, sample ∈ samples ->
     Z.of_nat (length (completed_names sample)) <> replicas) ->
  poll replicas (map answers samples) info0 =
  (foldl (fun i sample => record_all (completed_names sample) i) info0 samples,
   Raise TimeoutExpiredError).
Proof.
  revert info0. induction samples as [|sample samples IH]; intros info0 H.
  - reflexivity.
  - cbn [map poll]. unfold bind.
    rewrite poll_once_completed.
    rewrite (proj2 (Z.eqb_neq _ _)) by (apply H; left).
    apply IH. intros sample' Hin. apply H. by right.
Qed.

Lemma poll_answers_timeout_witness :
  poll 1 (map answers [[(lit "pf0", Terminated (lit "Completed"));
                        (lit "pf1", Terminated (lit "Completed"))];
                       [(lit "pf0", Running)]]) []
  = (foldl (fun i sample => record_all (completed_names sample) i) []
       [[(lit "pf0", Terminated (lit "Completed"));
         (lit "pf1", Terminated (lit "Completed"))];
        [(lit "pf0", Running)]],
     Raise TimeoutExpiredError).
Proof.
  apply poll_answers_timeout.
  intros sample [->|[->|H]%elem_of_cons]%elem_of_cons;
    [discriminate | discriminate | by apply elem_of_nil in H].
Defined.

(** X16: on samples whose pods all report the state of their container
    (samples built with [answers]), the loop stops at the first sample that
    has exactly [replicas] completed pods, with the completed pods of the
    samples up to that one recorded; the samples after it, which may be any,
    are not looked at. *)
Theorem poll_answers_stop replicas pre sample info0 :
  (forall sample', sample' ∈ pre ->
     Z.of_nat (length (completed_names sample')) <> replicas) ->
  Z.of_nat (length (completed_names sample)) = replicas ->
  forall rest : list (list (str * pyval)),
    poll replicas (map answers pre ++ answers sample :: rest) info0 =
    (foldl (fun i sample' => record_all (completed_names sample') i) info0
       (pre ++ [sample]),
     Ok tt).
Proof.
  intros Hpre Hs rest. revert info0.
  induction pre as [|sample' pre IH]; intros info0.
  - cbn [map app poll]. unfold bind.
    rewrite poll_once_completed.
    by rewrite (proj2 (Z.eqb_eq _ _) Hs).
  - cbn [map app poll]. unfold bind.
    rewrite poll_once_completed.
    rewrite (proj2 (Z.eqb_neq _ _)) by (apply Hpre; left).
    apply IH. intros s' Hin. apply Hpre. by right.
Qed.

Lemma poll_answers_stop_witness :
  poll 1 (map answers [[(lit "pf0", Waiting)]]
            ++ answers [(lit "pf0", Terminated (lit "Completed"))]
            :: [[(lit "pf0", PDict [])]]) []
  = (foldl (fun i sample' => record_all (completed_names sample') i) []
       ([[(lit "pf0", Waiting)]]
          ++ [[(lit "pf0", Terminated (lit "Completed"))]]),
     Ok tt).
Proof.
  apply (poll_answers_stop 1 [[(lit "pf0", Waiting)]]
           [(lit "pf0", Terminated (lit "Completed"))] []);
    [|reflexivity].
  intros sample' H. apply list_elem_of_singleton in H as ->. discriminate.
Defined.

Lemma update_keeps {A} k k' (v : A) d :
  is_Some (assoc k d) -> is_Some (assoc k (update k' v d)).
Proof.
  induction d as [|[k0 v0] d IH]; simpl; [by intros [? ?]|].
  destruct (bool_decide_reflect (k0 = k')) as [->|Hne]; simpl.
  - destruct (bool_decide (k' = k)); [by eexists | done].
  - destruct (bool_decide (k0 = k)); [by eexists | done].
Qed.

Lemma classify_step pod s s' r :
  classify pod s = (s', r) ->
  s' = s \/ exists v, s' = record_completed pod.1 v s.
Proof. classify_cases; intros [= <- <-]; eauto. Qed.

Lemma for_each_classify_keeps pods s s' r k :
  for_each pods classify s = (s', r) ->
  is_Some (assoc k (pods_info s)) -> is_Some (assoc k (pods_info s')).
Proof.
  revert s. induction pods as [|pod pods IH]; intros s.
  - by intros [= <- <-].
  - cbn [for_each]. unfold bind.
    destruct (classify pod s) as [s1 [[]|e]] eqn:E; intros H Hk.
    + eapply IH; [exact H|].
      apply classify_step in E as [->|(v & ->)]; [done|]. by apply update_keeps.
    + injection H as <- <-.
      apply classify_step in E as [->|(v & ->)]; [done|]. by apply update_keeps.
Qed.

Lemma poll_once_keeps replicas pods info0 info1 r k :
  poll_once replicas pods info0 = (info1, r) ->
  is_Some (assoc k info0) -> is_Some (assoc k info1).
Proof.
  unfold poll_once.
  destruct (for_each pods classify _) as [s [[]|e]] eqn:E; intros H Hk.
  - injection H as <- <-. by apply (for_each_classify_keeps _ _ _ _ _ E).
  - destruct (is_IndexError e); injection H as <- <-;
      by apply (for_each_classify_keeps _ _ _ _ _ E).
Qed.

(** X17: the polling loop never takes an entry out of [self.pods_info]: a
    pod recorded before a sample is still recorded after it, however the
    loop ends. *)
Theorem pods_info_grows replicas samples info0 info1 r pf_pod :
  poll replicas samples info0 = (info1, r) ->
  is_Some (assoc pf_pod info0) -> is_Some (assoc pf_pod info1).
Proof.
  revert info0. induction samples as [|pods samples IH]; intros info0.
  - by intros [= <- <-].
  - cbn [poll]. unfold bind.
    destruct (poll_once replicas pods info0) as [i1 [[]|e]] eqn:E; intros H Hk.
    + injection H as <- <-. by eapply poll_once_keeps.
    + eapply IH; [exact H|]. by eapply poll_once_keeps.
    + injection H as <- <-. by eapply poll_once_keeps.
Qed.

Lemma pods_info_grows_witness :
  is_Some (assoc (lit "pf0")
             [(lit "pf0", PStr (lit "Completed"));
              (lit "pf1", PStr (lit "Completed"))]).
Proof.
  apply (pods_info_grows 2
           [answers [(lit "pf0", Running);
                     (lit "pf1", Terminated (lit "Completed"))]]
           [(lit "pf0", PStr (lit "Completed"))]
           [(lit "pf0", PStr (lit "Completed"));
            (lit "pf1", PStr (lit "Completed"))]
           (Raise TimeoutExpiredError) (lit "pf0")).
  - reflexivity.
  - by eexists.
Defined.

Lemma drop_nul_clean data : "000"%char ∉ drop_nul data.
Proof. unfold drop_nul. intros H. by apply list_elem_of_filter in H as [H _]. Qed.

(** X18: after a run every entry of [self.pods_info] holds the reason
    [Completed]; the files written are the log files of the first entries, in
    their order, each named after its pod and holding the output that the
    host gave for it without its NUL characters; a run that ends without an
    error has written the file of every entry; a run that ends with an error
    has either written nothing, the error being that of the polling loop, or
    stopped at the first entry for which the host raised that error. *)
Theorem run_pillowfights_written replicas samples h st r :
  run_pillowfights replicas samples h = (st, r) ->
  all_completed (info st) /\
  (exists done rest,
     info st = done ++ rest /\ Forall2 (logged h) done (written st) /\
     (r = Ok tt -> rest = []) /\
     (forall e, r = Raise e ->
        (written st = [] /\ poll replicas samples [] = (info st, Raise e)) \/
        (exists item rest', rest = item :: rest' /\ refused h item e))) /\
  (forall f data, (f, data) ∈ written st -> "000"%char ∉ data).
Proof.
  unfold run_pillowfights.
  destruct (poll replicas samples []) as [pi [[]|e]] eqn:E.
  - assert (Hc : all_completed pi)
      by (eapply poll_all_completed; [exact E | constructor]).
    intros Ec.
    apply (collect_completed _ _ _ _ _ Hc) in Ec
      as (Hi & done & rest & files & -> & HF & Hw & Hr).
    simpl in Hi, Hw. subst files. rewrite Hi.
    split; [done|]. split.
    + exists done, rest. repeat split; try done.
      * by intros ->.
      * intros e ->. by right.
    + intros f data Hin.
      destruct (proj1 (list_elem_of_lookup _ _) Hin) as [i Hi'].
      destruct (Forall2_lookup_r _ _ _ _ _ HF Hi')
        as (item & _ & data' & _ & _ & [= -> ->]).
      apply drop_nul_clean.
  - intros [= <- <-]. simpl. split.
    { eapply poll_all_completed; [exact E | constructor]. }
    split.
    + exists [], pi. split; [done|]. split; [constructor|].
      split; [done|]. intros e' [= <-]. by left.
    + by intros f data ?%elem_of_nil.
Qed.

Lemma run_pillowfights_written_witness :
  all_completed (info {| info := [(lit "pf0", PStr (lit "Completed"))];
                         written := [(lit "pf0.log", lit "ab")] |}) /\
  (exists done rest,
     info {| info := [(lit "pf0", PStr (lit "Completed"))];
             written := [(lit "pf0.log", lit "ab")] |} = done ++ rest /\
     Forall2 (logged {| logs_of := fun _ => Ok ["a"; "000"; "b"]%char;
                        write_file := fun _ _ => Ok tt |})
       done
       (written {| info := [(lit "pf0", PStr (lit "Completed"))];
                   written := [(lit "pf0.log", lit "ab")] |}) /\
     (@Ok unit tt = Ok tt -> rest = []) /\
     (forall e, @Ok unit tt = Raise e ->
        (written {| info := [(lit "pf0", PStr (lit "Completed"))];
                    written := [(lit "pf0.log", lit "ab")] |} = [] /\
         poll 1 [answers [(lit "pf0", Terminated (lit "Completed"))]] []
         = (info {| info := [(lit "pf0", PStr (lit "Completed"))];
                    written := [(lit "pf0.log", lit "ab")] |}, Raise e)) \/
        (exists item rest',
           rest = item :: rest' /\
           refused {| logs_of := fun _ => Ok ["a"; "000"; "b"]%char;
                      write_file := fun _ _ => Ok tt |} item e))) /\
  (forall f data,
     (f, data) ∈ written {| info := [(lit "pf0", PStr (lit "Completed"))];
                            written := [(lit "pf0.log", lit "ab")] |} ->
     "000"%char ∉ data).
Proof.
  apply (run_pillowfights_written 1
           [answers [(lit "pf0", Terminated (lit "Completed"))]]
           {| logs_of := fun _ => Ok ["a"; "000"; "b"]%char;
              write_file := fun _ _ => Ok tt |}).
  reflexivity.
Defined.

(** A host that refuses the output of the second pod: the log file of the
    first pod has been written when the run ends with the error of the
    host. *)
Lemma run_pillowfights_partial_example :
  run_pillowfights 2
    [answers [(lit "pf0", Terminated (lit "Completed"));
              (lit "pf1", Terminated (lit "Completed"))]]
    {| logs_of := fun pod => if bool_decide (pod = lit "pf0")
                             then Ok (lit "ab") else Raise CommandFailed;
       write_file := fun _ _ => Ok tt |}
  = ({| info := [(lit "pf0", PStr (lit "Completed"));
                 (lit "pf1", PStr (lit "Completed"))];
        written := [(lit "pf0.log", lit "ab")] |},
     Raise CommandFailed).
Proof. reflexivity. Qed.

(** ** [export_pfoutput_to_googlesheet] *)

Lemma export_row_ok path data calls :
  has_stats data ->
  exists call, exported (path, data) call /\
               export_row (path, data) calls = (calls ++ [call], Ok tt).
Proof.
  intros (r & Hr & Hops & Hh & Hsize).
  destruct (py_min_spec _ Hops) as (m & Em & Hm).
  destruct (py_max_keys_spec _ Hh) as (k & Ek & Hk).
  destruct (truediv_1000_le k 0 (Hsize k (proj1 Hk)) ltac:(lia))
    as (q & Eq & _).
  eexists. split; [by exists r, m, k, q|].
  unfold export_row, bind, lift, insert_row, modify. simpl.
  by rewrite Hr, Em, Ek, Eq.
Qed.

Lemma for_each_export_ok files calls :
  (forall p d, (p, d) ∈ files -> has_stats d) ->
  exists rows, Forall2 exported files rows /\
               for_each files export_row calls = (calls ++ rows, Ok tt).
Proof.
  revert calls. induction files as [|[p d] files IH]; intros calls H.
  - exists []. split; [constructor|]. simpl. by rewrite app_nil_r.
  - destruct (export_row_ok p d calls) as (call & Hcall & E);
      [apply (H p d); left|].
    destruct (IH (calls ++ [call])) as (rows & Hrows & E');
      [intros p' d' Hin; apply (H p' d'); by right|].
    exists (call :: rows). split; [by constructor|].
    cbn [for_each]. unfold bind. rewrite E, E'. by rewrite <- app_assoc.
Qed.

(** X19: when every file gives at least one sample and one bucket, and no
    key of [2^1000] or more in size, the export inserts one row for each
    file, in the order of the files, with the name of the file, its least
    sample and the float that its greatest key divided by 1000 gives, then
    the row of the titles and the row of the versions, all at index 2, and
    raises nothing; the thresholds play no part. *)
Theorem export_rows files v :
  (forall p d, (p, d) ∈ files -> has_stats d) ->
  exists rows,
    Forall2 exported files rows /\
    export_pfoutput_to_googlesheet files v []
    = (rows ++ [(header_row, 2); (versions_row v, 2)], Ok tt).
Proof.
  intros H. destruct (for_each_export_ok files [] H) as (rows & Hrows & E).
  exists rows. split; [done|].
  unfold export_pfoutput_to_googlesheet, bind, insert_row, modify.
  rewrite E. simpl. by rewrite <- app_assoc.
Qed.

Lemma has_stats_example :
  has_stats (lit "OPS/SEC 1500" ++ nl ++ lit "[0 - 100]us |# - 5").
Proof.
  exists {| opspersec := [1500];
            resptimes := {[ 100 := {| minindx := 0; number := 5 |} ]} |}.
  split; [vm_compute; reflexivity|]. split; [discriminate|]. split.
  - simpl. intros H. apply (f_equal (fun d => d !! 100)) in H.
    vm_compute in H. discriminate.
  - intros k [b H]. simpl in H.
    apply lookup_singleton_Some in H as [<- _]. reflexivity.
Qed.

Lemma export_rows_witness :
  exists rows,
    Forall2 exported
      [(lit "pf0.log", lit "OPS/SEC 1500" ++ nl ++ lit "[0 - 100]us |# - 5")]
      rows /\
    export_pfoutput_to_googlesheet
      [(lit "pf0.log", lit "OPS/SEC 1500" ++ nl ++ lit "[0 - 100]us |# - 5")]
      {| cluster_version := lit "4.5"; ocs_build_number := lit "4.5.0-1";
         ceph_version := lit "14.2"; testrun_name := lit "run" |} []
    = (rows ++ [(header_row, 2);
                (versions_row
                   {| cluster_version := lit "4.5";
                      ocs_build_number := lit "4.5.0-1";
                      ceph_version := lit "14.2";
                      testrun_name := lit "run" |}, 2)],
       Ok tt).
Proof.
  apply export_rows.
  intros p d H. apply list_elem_of_singleton in H. injection H as -> ->.
  exact has_stats_example.
Defined.

Lemma export_row_no_sample path data calls :
  omap ops_sample (split_on "010" data) = [] ->
  export_row (path, data) calls = (calls, Raise ValueError).
Proof.
  intros H. destruct (parse_samples data) as (r & Hr & Hops).
  unfold export_row, bind, lift. rewrite Hr, Hops, H. reflexivity.
Qed.

(** X20: after files that give at least one sample and one bucket each, and
    no key of [2^1000] or more in size, a file that gives no sample makes
    the export raise [ValueError]: the rows of the files before it have
    been inserted, the rows of the titles and of the versions have not. *)
Theorem export_no_sample pre path data post v :
  (forall p d, (p, d) ∈ pre -> has_stats d) ->
  omap ops_sample (split_on "010" data) = [] ->
  exists rows,
    Forall2 exported pre rows /\
    export_pfoutput_to_googlesheet (pre ++ (path, data) :: post) v []
    = (rows, Raise ValueError).
Proof.
  intros Hpre Hd. destruct (for_each_export_ok pre [] Hpre) as (rows & Hrows & E).
  exists rows. split; [done|].
  unfold export_pfoutput_to_googlesheet. unfold bind at 1 2.
  rewrite for_each_app, E. cbn [for_each]. unfold bind.
  by rewrite export_row_no_sample.
Qed.

Lemma export_no_sample_witness :
  exists rows,
    Forall2 exported
      [(lit "pf0.log", lit "OPS/SEC 1500" ++ nl ++ lit "[0 - 100]us |# - 5")]
      rows /\
    export_pfoutput_to_googlesheet
      ([(lit "pf0.log", lit "OPS/SEC 1500" ++ nl ++ lit "[0 - 100]us |# - 5")]
         ++ (lit "pf1.log", lit "[0 - 100]us |# - 5") :: [])
      {| cluster_version := lit "4.5"; ocs_build_number := lit "4.5.0-1";
         ceph_version := lit "14.2"; testrun_name := lit "run" |} []
    = (rows, Raise ValueError).
Proof.
  apply export_no_sample; [|reflexivity].
  intros p d H. apply list_elem_of_singleton in H. injection H as -> ->.
  exact has_stats_example.
Defined.

(** A key of 401 digits: the true division raises [OverflowError], and the
    export ends with it before any row is inserted. *)
Lemma export_overflow_example v :
  export_pfoutput_to_googlesheet
    [(lit "pf0.log",
      lit "OPS/SEC 2500" ++ nl ++
      lit "[0 - 1" ++ replicate 400 "0"%char ++ lit "]us |# - 5")] v []
  = ([], Raise OverflowError).
Proof. vm_compute. reflexivity. Qed.
